(** * Generator: an Inkscape extension that generates end-use files from a
    template and a csv table (src/generator.py)

    Shallow embedding of the templating engine (row descriptors, the two
    substitution stages, the layer filter) and of the driver around it
    (csv ingestion, per-row materialisation, export), followed by the
    properties the specification states about them. *)

From Stdlib Require Import String Ascii List Bool Arith ZArith Lia DecimalString.
From Stdlib Require DecimalNat.
Import ListNotations.
Open Scope string_scope.

(** ** Python byte strings

    The program is Python 2: [str] is a byte string, modelled as [string]
    (a list of 8-bit characters). *)

Definition dquote : string := String (ascii_of_nat 34) "".
Definition newline : ascii := ascii_of_nat 10.
Definition percent : ascii := ascii_of_nat 37.

(** [sub in s] *)
Fixpoint str_in (sub s : string) : bool :=
  prefix sub s ||
  match s with
  | "" => false
  | String _ s' => str_in sub s'
  end.

(** [s.find(sub)]: the lowest index where [sub] starts, -1 when absent. *)
Fixpoint find (s sub : string) : Z :=
  if prefix sub s then 0%Z
  else match s with
       | "" => (-1)%Z
       | String _ s' =>
           let r := find s' sub in
           if (r <? 0)%Z then (-1)%Z else (r + 1)%Z
       end.

(** [s.replace(old, new)] scans left to right and replaces the
    non-overlapping occurrences of [old]; [skip] counts the characters of a
    matched occurrence still to be consumed. *)
Fixpoint replace_go (old new : string) (skip : nat) (s : string) : string :=
  match s with
  | "" => ""
  | String c s' =>
      match skip with
      | S k => replace_go old new k s'
      | O =>
          if prefix old s
          then new ++ replace_go old new (String.length old - 1) s'
          else String c (replace_go old new 0 s')
      end
  end.

(** With an empty [old], Python inserts [new] before every character and
    at the end. *)
Fixpoint interleave (new s : string) : string :=
  match s with
  | "" => new
  | String c s' => new ++ String c (interleave new s')
  end.

Definition replace (s old new : string) : string :=
  match old with
  | "" => interleave new s
  | _ => replace_go old new 0 s
  end.

(** [s.split(sep)] for a non-empty [sep]: the pieces between the
    non-overlapping occurrences of [sep], found left to right. *)
Fixpoint split_go (sep : string) (skip : nat) (s : string) : list string :=
  match s with
  | "" => [""]
  | String c s' =>
      match skip with
      | S k => split_go sep k s'
      | O =>
          if prefix sep s
          then "" :: split_go sep (String.length sep - 1) s'
          else match split_go sep 0 s' with
               | p :: ps => String c p :: ps
               | [] => [String c ""]
               end
      end
  end.

Definition split (s sep : string) : list string := split_go sep 0 s.

(** [s.lower()] on a byte string (C locale): the letters A-Z only. *)
Definition lower_char (c : ascii) : ascii :=
  let n := nat_of_ascii c in
  if ((65 <=? n) && (n <=? 90))%nat then ascii_of_nat (n + 32) else c.

Fixpoint lower (s : string) : string :=
  match s with
  | "" => ""
  | String c s' => String (lower_char c) (lower s')
  end.

(** [str(i)] for a non-negative integer. *)
Definition str (i : nat) : string := NilZero.string_of_uint (Nat.to_uint i).

(** [xml.sax.saxutils.escape(data)] of the Python standard library, called
    with no extra entities: three successive replacements. *)
Definition escape (data : string) : string :=
  let data := replace data "&" "&amp;" in
  let data := replace data ">" "&gt;" in
  let data := replace data "<" "&lt;" in
  data.

(** [s[n:]] *)
Fixpoint drop (n : nat) (s : string) : string :=
  match n, s with
  | S k, String _ s' => drop k s'
  | _, _ => s
  end.

(** The longest prefix of [s] without a percent sign, and what follows. *)
Fixpoint span_not_percent (s : string) : string * string :=
  match s with
  | "" => ("", "")
  | String c s' =>
      if Ascii.eqb c percent then ("", s)
      else let '(grp, rest) := span_not_percent s' in (String c grp, rest)
  end.

(** The rest of the pattern (the tag, a group of characters other than a
    percent sign, a percent sign) tried at the start of [s]: the group is the
    whole run of characters other than a percent sign that follows [tag],
    and a percent sign has to come next. *)
Definition match_here (tag s : string) : option string :=
  if prefix tag s
  then let '(grp, rest) := span_not_percent (drop (String.length tag) s) in
       match rest with
       | String _ _ => Some grp
       | "" => None
       end
  else None.

(** [re.match] of the pattern made of [.*], the tag, a group of any number
    of characters other than a percent sign, and a percent sign, against
    [label]; the result is [groups()[0]] of the match, or [None].  The
    match is anchored at the start of [label]; the greedy [.*] takes
    characters other than a newline and gives them back one at a time, so
    the rightmost position of the first line where the rest of the pattern
    matches is the one chosen. *)
Fixpoint re_match (tag label : string) : option string :=
  match label with
  | "" => match_here tag label
  | String c rest =>
      if Ascii.eqb c newline then match_here tag label
      else match re_match tag rest with
           | Some grp => Some grp
           | None => match_here tag label
           end
  end.

(** ** Python dictionaries

    A dictionary is kept as the list of its items, in the order in which
    [iteritems()] yields them; keys are unique.  Python 2 leaves that order
    unspecified: [dict_set] puts a new key last, which is one possible
    order, and the statements about loops over the items of a dictionary
    are made for an arbitrary list of items. *)

Section Dict.
Context {K V : Type} (eqb : K -> K -> bool).

Definition dict := list (K * V).

(** [d[k]], [None] standing for [KeyError] *)
Fixpoint dict_get (d : dict) (k : K) : option V :=
  match d with
  | [] => None
  | (k', v) :: d' => if eqb k' k then Some v else dict_get d' k
  end.

(** [d[k] = v] *)
Fixpoint dict_set (d : dict) (k : K) (v : V) : dict :=
  match d with
  | [] => [(k, v)]
  | (k', v') :: d' =>
      if eqb k' k then (k', v) :: d' else (k', v') :: dict_set d' k v
  end.

(** [dict(pairs)]: later pairs overwrite earlier ones with the same key. *)
Definition dict_of (pairs : list (K * V)) : dict :=
  fold_left (fun d kv => dict_set d (fst kv) (snd kv)) pairs [].

(** [del d[k]] *)
Definition dict_del (d : dict) (k : K) : dict :=
  filter (fun kv => negb (eqb (fst kv) k)) d.
End Dict.

Definition row := list string.

(** Equality of rows, the keys of self.svgouts (a row is turned into a
    tuple to serve as a key). *)
Fixpoint row_eqb (a b : row) : bool :=
  match a, b with
  | [], [] => true
  | x :: a', y :: b' => (x =? y) && row_eqb a' b'
  | _, _ => false
  end.
Definition name_dict := @dict string string.

(** [zip(a, b)] *)
Definition zip {A B} (a : list A) (b : list B) : list (A * B) := combine a b.

(** ** lxml element trees *)

#[warnings="-register-all"]
Inductive element : Type :=
  Element (tag : string) (attrib : @dict string string)
          (text : option string) (children : list element)
          (tail : option string).

Definition tag (e : element) := let 'Element t _ _ _ _ := e in t.
Definition attrib (e : element) := let 'Element _ a _ _ _ := e in a.
Definition text (e : element) := let 'Element _ _ x _ _ := e in x.
Definition children (e : element) := let 'Element _ _ _ c _ := e in c.
Definition tail (e : element) := let 'Element _ _ _ _ t := e in t.

Definition set_attrib (a : @dict string string) (e : element) : element :=
  let 'Element t _ x c tl := e in Element t a x c tl.

(** [g.clear()]: lxml removes all subelements, clears all attributes and
    sets the text and tail to [None]. *)
Definition clear (g : element) : element := Element (tag g) [] None [] None.

(** [inkex.NSS] and [inkex.addNS] of Inkscape's extension library, at the
    two prefixes used here. *)
Definition NSS_svg : string := "http://www.w3.org/2000/svg".
Definition NSS_inkscape : string := "http://www.inkscape.org/namespaces/inkscape".
Definition addNS (name ns_uri : string) : string := "{" ++ ns_uri ++ "}" ++ name.

(** A node of a tree is named by the child indexes leading to it. *)
Definition path := list nat.

Fixpoint subtree (e : element) (p : path) : option element :=
  match p with
  | [] => Some e
  | i :: q =>
      match nth_error (children e) i with
      | Some c => subtree c q
      | None => None
      end
  end.

Fixpoint update_nth {A} (i : nat) (f : A -> A) (l : list A) : list A :=
  match l, i with
  | [], _ => []
  | x :: l', O => f x :: l'
  | x :: l', S j => x :: update_nth j f l'
  end.

(** The tree [e] with the node at [p] replaced (unchanged when [p] names
    no node). *)
Fixpoint replace_at (p : path) (new : element) (e : element) : element :=
  match p with
  | [] => new
  | i :: q =>
      let 'Element t a x c tl := e in
      Element t a x (update_nth i (replace_at q new) c) tl
  end.

(** The paths of one level of children, the child at position [i] first,
    given the paths [f] finds inside each child. *)
Definition walk_with (f : element -> list path) : nat -> list element -> list path :=
  fix walk (i : nat) (cs : list element) : list path :=
    match cs with
    | [] => []
    | c :: cs' => (map (cons i) (f c) ++ walk (S i) cs')%list
    end.

(** [root.xpath("//svg:g", namespaces=inkex.NSS)]: every [g] element of
    the SVG namespace in the document, in document order. *)
Fixpoint xpath_g (e : element) : list path :=
  let 'Element t _ _ c _ := e in
  ((if t =? addNS "g" NSS_svg then [[]] else []) ++ walk_with xpath_g 0 c)%list.

(** ** The Generator object and its environment *)

(** [self.options], as the option parser fills it. *)
Record Options := {
  preview : string;
  extra_vars : string;
  format : string;
  dpi : string;
  var_type : string;
  datafile : string;
  output : string }.

(** Exceptions the program raises or lets through. *)
Inductive exn :=
| Exception (msg : string)
| IndexError
| TypeError
| UnboundLocalError
| XMLSyntaxError
| OSError
| IOError.

(** What a run does to the outside world, in order. *)
Inductive event :=
| Errormsg (msg : string)              (* inkex.errormsg(msg) *)
| WriteSvg (file content : string)     (* a temporary svg file is written *)
| MoveFile (src dst : string)          (* shutil.move(src, dst) succeeded *)
| System (cmd : string)                (* os.system(cmd) *)
| OpenPreview (file : string)          (* the viewer of the platform is started *)
| Remove (file : string)               (* os.remove(file) *)
| Rmdir.                               (* os.rmdir(self.tmpdir) *)

(** The fields of the [Generator] instance, the number of temporary names
    handed out so far, and the events of the run so far (oldest first). *)
Record Generator := {
  options : Options;
  header : option (list string);
  data : option (list row);
  svgouts : @dict row string;
  ntemp : nat;
  trace : list event }.

(** [Generator.__init__] *)
Definition init (o : Options) : Generator :=
  {| options := o; header := None; data := None; svgouts := [];
     ntemp := 0; trace := [] |}.

Definition set_format (f : string) (g : Generator) : Generator :=
  let o := options g in
  {| options := {| preview := preview o; extra_vars := extra_vars o;
                   format := f; dpi := dpi o; var_type := var_type o;
                   datafile := datafile o; output := output o |};
     header := header g; data := data g; svgouts := svgouts g;
     ntemp := ntemp g; trace := trace g |}.

Definition set_header (h : list string) (g : Generator) : Generator :=
  {| options := options g; header := Some h; data := data g;
     svgouts := svgouts g; ntemp := ntemp g; trace := trace g |}.

Definition set_data (d : list row) (g : Generator) : Generator :=
  {| options := options g; header := header g; data := Some d;
     svgouts := svgouts g; ntemp := ntemp g; trace := trace g |}.

Definition set_svgouts (s : @dict row string) (g : Generator) : Generator :=
  {| options := options g; header := header g; data := data g;
     svgouts := s; ntemp := ntemp g; trace := trace g |}.

Definition next_temp (g : Generator) : Generator :=
  {| options := options g; header := header g; data := data g;
     svgouts := svgouts g; ntemp := S (ntemp g); trace := trace g |}.

Definition emit (e : event) (g : Generator) : Generator :=
  {| options := options g; header := header g; data := data g;
     svgouts := svgouts g; ntemp := ntemp g; trace := (trace g ++ [e])%list |}.

(** The files in the temporary directory after the events of a trace:
    those written there and neither moved away nor removed since. *)
Definition remove_name (f : string) (files : list string) : list string :=
  filter (fun x => negb (x =? f)) files.

Definition fs_step (files : list string) (e : event) : list string :=
  match e with
  | WriteSvg f _ =>
      if existsb (String.eqb f) files then files else (files ++ [f])%list
  | MoveFile src _ => remove_name src files
  | Remove f => remove_name f files
  | _ => files
  end.

Definition tmp_files (tr : list event) : list string :=
  fold_left fs_step tr [].

(** What the program reads from and asks of its surroundings. *)
Record World := {
  (* the rows csv.reader yields from a file; None when open raises IOError *)
  csv_rows : string -> option (list row);
  (* open(self.svg_file, 'r').readlines() *)
  svg_lines : list string;
  (* etree.fromstring, None for a syntax error *)
  fromstring : string -> option element;
  (* etree.tostring(root, encoding='utf-8', xml_declaration=True) *)
  tostring : element -> string;
  (* the name tempfile.mktemp returns at its n-th call *)
  mktemp : nat -> string;
  (* whether open(file, 'w') succeeds *)
  writable : string -> bool;
  (* what shutil.move(src, dst) does: None when the file was moved,
     otherwise the exception it raises.  Python 2's shutil.move catches
     the OSError of os.rename itself and falls back to copying the file,
     so a destination that cannot be created (missing directory,
     permission denied) makes it raise IOError, which is not an OSError. *)
  shutil_move : string -> string -> option exn;
  (* os.name *)
  os_name : string;
  (* whether os.system('rsvg-convert --version 1>/dev/null') returns 0 *)
  rsvg_present : bool;
  (* whether os has a startfile attribute *)
  has_startfile : bool }.

(** Computations of the program: they read and update the Generator, and
    end with a value or with an exception. *)
Definition M (A : Type) : Type := Generator -> (exn + A) * Generator.

Definition ret {A} (a : A) : M A := fun g => (inr a, g).

Definition bind {A B} (m : M A) (k : A -> M B) : M B :=
  fun g =>
    match m g with
    | (inr a, g') => k a g'
    | (inl e, g') => (inl e, g')
    end.

Definition raise {A} (e : exn) : M A := fun g => (inl e, g).
Definition self : M Generator := fun g => (inr g, g).
Definition update (f : Generator -> Generator) : M unit := fun g => (inr tt, f g).
Definition errormsg (msg : string) : M unit := update (emit (Errormsg msg)).

Declare Scope py_scope.
Delimit Scope py_scope with py.
Notation "x <- m ;; k" := (bind m (fun x => k))
  (at level 61, m at next level, right associativity) : py_scope.
Notation "m ;; k" := (bind m (fun _ => k))
  (at level 61, right associativity) : py_scope.
Open Scope py_scope.

(** [for x in l: body(x)] *)
Fixpoint for_each {A} (l : list A) (body : A -> M unit) : M unit :=
  match l with
  | [] => ret tt
  | x :: l' => body x ;; for_each l' body
  end.

(** A loop that carries a local value from one round to the next. *)
Fixpoint for_fold {A B} (l : list A) (acc : B) (body : A -> B -> M B) : M B :=
  match l with
  | [] => ret acc
  | x :: l' => acc' <- body x acc ;; for_fold l' acc' body
  end.

(** The gettext function [_] is the identity where no translation is
    installed; the messages are the source's. *)
Definition msg_cannot_read (f : string) : string :=
  "Cannot read " ++ dquote ++ f ++ dquote.
Definition msg_no_data (f : string) : string :=
  "Data file " ++ dquote ++ f ++ dquote ++ " contains no data".
Definition msg_cannot_open (f : string) : string :=
  "Cannot open " ++ dquote ++ f ++ dquote ++ " for writing".
Definition msg_unrecognized (t : string) : string :=
  "Unrecognized replacement string " ++ t.
Definition msg_wrong_name (column : string) : string :=
  "Wrong column name " ++ dquote ++ column ++ dquote.
Definition msg_wrong_number (column : string) : string :=
  "Wrong column number (" ++ column ++ ")".
Definition msg_not_in_csv (lookup : string) : string :=
  "Column " ++ dquote ++ lookup ++ dquote ++ " not in the csv file".
Definition msg_cannot_create (outfile : string) : string :=
  "Cannot create " ++ dquote ++ outfile ++ dquote.
Definition msg_preview : string := "Error open preview file".

Definition _use_rsvg : bool := false.

(** [os.remove(file)]: OSError when the file is not there. *)
Definition os_remove (file : string) : M unit :=
  g <- self ;;
  if existsb (String.eqb file) (tmp_files (trace g))
  then update (emit (Remove file))
  else raise OSError.

(** [os.rmdir(self.tmpdir)]: OSError unless the directory is empty. *)
Definition os_rmdir : M unit :=
  g <- self ;;
  match tmp_files (trace g) with
  | [] => update (emit Rmdir)
  | _ :: _ => raise OSError
  end.

(** [try: m except: handler] with a bare [except] *)
Definition try_except {A} (m : M A) (handler : M A) : M A :=
  fun g =>
    match m g with
    | (inr a, g') => (inr a, g')
    | (inl _, g') => handler g'
    end.

(** The outcome of one of the two marker blocks of the layer loop: the
    [continue] statement was reached, or control leaves the block at its
    end. *)
Inductive ctl := Continue | FallThrough.

(** ** The methods of [Generator] *)

Section Methods.
Variable env : World.

(** Read data from the csv file and store the rows into self.data *)
Definition handle_csv : M unit :=
  g <- self ;;
  let file := datafile (options g) in
  match csv_rows env file with
  | None =>
      errormsg (msg_cannot_read file) ;;
      raise (Exception (msg_cannot_read file))
  | Some reader =>
      reader <- (if var_type (options g) =? "name"
                 then match reader with
                      | h :: rest => update (set_header h) ;; ret rest
                      | [] =>
                          errormsg (msg_no_data file) ;;
                          raise (Exception (msg_no_data file))
                      end
                 else ret reader) ;;
      update (set_data reader)
  end.

(** Return the name of a temporary svg file *)
Definition get_svgout : M string :=
  g <- self ;;
  update next_temp ;;
  ret (mktemp env (ntemp g)).

(** Return the current csv line as dict with csv headers as keys *)
Definition get_line_desc (line : row) : M name_dict :=
  g <- self ;;
  match header g with
  | Some h => ret (dict_of String.eqb (zip h line))
  | None => raise TypeError
  end.

(** Replace %VAR_???% with the content from a csv entry *)
Definition expand_vars (line : string) (name_dict : name_dict) : string :=
  if negb (str_in "%" line) then line
  else fold_left
         (fun line '(k, v) => replace line ("%VAR_" ++ k ++ "%") (escape v))
         name_dict line.

(** Return the name of the output file for a csv entry *)
Definition get_output (name_dict : name_dict) : M string :=
  g <- self ;;
  ret (expand_vars (output (options g)) name_dict).

(** Replace extra replacement values with the content from a csv entry *)
Definition expand_extra_vars (line : string) (name_dict : name_dict)
  : M string :=
  g <- self ;;
  if extra_vars (options g) =? "" then ret line
  else
    let replacement_strings := split (extra_vars (options g)) "|" in
    for_fold replacement_strings line (fun t line =>
      match split t "=>" with
      | [old_txt; column] =>
          if (find line old_txt <? 0)%Z
          then (* Nothing to be replaced. *) ret line
          else
            match dict_get String.eqb name_dict column with
            | Some v => ret (replace line old_txt (escape v))
            | None =>
                if var_type (options g) =? "name"
                then errormsg (msg_wrong_name column) ;;
                     raise (Exception (msg_wrong_name column))
                else errormsg (msg_wrong_number column) ;;
                     raise (Exception (msg_wrong_number column))
            end
      | _ =>
          errormsg (msg_unrecognized t) ;;
          raise (Exception (msg_unrecognized t))
      end).

(** The test of the %IF_???% block, [var and (var.lower() not in
    ('0', 'false', 'no'))], and the test of the %UNLESS_???% block,
    [not(var) or (var.lower() in ('0', 'false', 'no'))]. *)
Definition str_in_tuple (s : string) (t : list string) : bool :=
  existsb (String.eqb s) t.

Definition if_test (var : string) : bool :=
  negb (var =? "") && negb (str_in_tuple (lower var) ["0"; "false"; "no"]).

Definition unless_test (var : string) : bool :=
  (var =? "") || str_in_tuple (lower var) ["0"; "false"; "no"].

(** [if 'style' in g.attrib: del g.attrib['style']] *)
Definition show (g : element) : element :=
  set_attrib (dict_del String.eqb (attrib g) "style") g.

(** The body of the loop of [filter_layers] on one group: the messages
    passed to [errormsg], and the group as the body leaves it.  The
    method does not use [self]. *)
Definition filter_group (name_dict : name_dict) (g : element)
  : list string * element :=
  let attr := addNS "label" NSS_inkscape in
  match dict_get String.eqb (attrib g) attr with
  | None => (* Not a layer, skip. *) ([], g)
  | Some label =>
      if negb (str_in "%" label)
      then (* Nothing to be done, skip. *) ([], g)
      else
        (* Treat %IF_???% layers *)
        let r :=
          match re_match "%IF_" label with
          | Some lookup =>
              match dict_get String.eqb name_dict lookup with
              | None => ([msg_not_in_csv lookup], Continue, g)
              | Some var =>
                  if if_test var
                  then (* Set group visibility to true, include the group. *)
                       ([], Continue, show g)
                  else (* Remove the group's content. *)
                       ([], FallThrough, clear g)
              end
          | None => ([], FallThrough, g)
          end in
        match r with
        | (msgs, Continue, g) => (msgs, g)
        | (msgs, FallThrough, g) =>
            (* Treat %UNLESS_???% layers *)
            match re_match "%UNLESS_" label with
            | Some lookup =>
                match dict_get String.eqb name_dict lookup with
                | None => ((msgs ++ [msg_not_in_csv lookup])%list, g)
                | Some var =>
                    if unless_test var
                    then (* Set group visibility to true, include the group. *)
                         (msgs, show g)
                    else (* Remove the group's content. *)
                         (msgs, clear g)
                end
            | None => (msgs, g)
            end
        end
  end.

(** One round of the loop of [filter_layers], at the group the query
    found at [p] in the parsed tree [root]; [t] is the tree so far.  A
    group whose ancestor was cleared in an earlier round is no longer
    in the tree: it is still visited, as the object it was in the
    parsed tree, and the tree is unaffected. *)
Definition filter_step (name_dict : name_dict) (root : element)
  (acc : list string * element) (p : path) : list string * element :=
  let '(msgs, t) := acc in
  match subtree t p with
  | Some g =>
      let '(m, g') := filter_group name_dict g in
      ((msgs ++ m)%list, replace_at p g' t)
  | None =>
      match subtree root p with
      | Some g => ((msgs ++ fst (filter_group name_dict g))%list, t)
      | None => (msgs, t)
      end
  end.

(** Return the xml root with filtered layers: the messages passed to
    [errormsg], in order, and the tree after the loop.  The groups are
    those the query found before the loop starts, in document order. *)
Definition filter_layers (root : element) (name_dict : name_dict)
  : list string * element :=
  fold_left (filter_step name_dict root) (xpath_g root) ([], root).

(** Writes out a modified svg *)
Definition create_svg (name_dict : name_dict) : M string :=
  s <- for_fold (svg_lines env) "" (fun svg_line s =>
         (* Modify the line to handle replacements from extension GUI *)
         svg_line <- expand_extra_vars svg_line name_dict ;;
         (* Modify the line to handle variables in svg file *)
         let svg_line := expand_vars svg_line name_dict in
         ret (s ++ svg_line)) ;;
  (* Modify the svg to include or exclude groups *)
  match fromstring env s with
  | None => raise XMLSyntaxError
  | Some root =>
      let '(msgs, root) := filter_layers root name_dict in
      for_each msgs errormsg ;;
      svgout <- get_svgout ;;
      if writable env svgout
      then update (emit (WriteSvg svgout (tostring env root))) ;;
           ret svgout
      else (* f was never bound when the finally clause closes it *)
           errormsg (msg_cannot_open svgout) ;;
           raise UnboundLocalError
  end.

(** Read each line and fill self.svgouts *)
Definition create_svg_name : M unit :=
  g <- self ;;
  match data g with
  | None => raise TypeError
  | Some rows =>
      for_each rows (fun l =>
        d <- get_line_desc l ;;
        svgout <- create_svg d ;;
        update (fun g => set_svgouts (dict_set row_eqb (svgouts g) l svgout) g))
  end.

(** Create a header, read each line and fill self.svgouts *)
Definition create_svg_number : M unit :=
  g <- self ;;
  match data g with
  | None => raise TypeError
  | Some [] => raise IndexError
  | Some (first :: _) =>
      update (set_header (map str (seq 0 (List.length first)))) ;;
      create_svg_name
  end.

Definition inkscape_cmd (svgfile fmt dpi outfile : string) : string :=
  "inkscape --without-gui " ++
  "--export-dpi=" ++ dpi ++ " " ++
  "--export-" ++ fmt ++ "=" ++ dquote ++ outfile ++ dquote ++ " " ++
  dquote ++ svgfile ++ dquote.

Definition get_export_cmd (svgfile fmt dpi outfile : string) : option string :=
  if _use_rsvg && (os_name env =? "posix")
  then if rsvg_present env
       then Some ("rsvg-convert" ++
                  " --dpi-x=" ++ dpi ++
                  " --dpi-y=" ++ dpi ++
                  " --format=" ++ fmt ++
                  " --output=" ++ dquote ++ outfile ++ dquote ++
                  " " ++ dquote ++ svgfile ++ dquote)
       else None
  else Some (inkscape_cmd svgfile fmt dpi outfile).

(** The body of the loop of [export] for one item of self.svgouts. *)
Definition export_item (item : row * string) : M unit :=
  let '(line, svgfile) := item in
  d <- get_line_desc line ;;
  outfile <- get_output d ;;
  g <- self ;;
  outfile <- (if format (options g) =? "jpg"
              then (* TODO: output a jpg file *)
                   update (set_format "png") ;;
                   ret (replace outfile "jpg" "png")
              else ret outfile) ;;
  g <- self ;;
  if format (options g) =? "svg"
  then match shutil_move env svgfile outfile with
       | None => update (emit (MoveFile svgfile outfile))
       | Some OSError => errormsg (msg_cannot_create outfile)
       | Some e => raise e
       end
  else match get_export_cmd svgfile (format (options g))
               (dpi (options g)) outfile with
       | Some cmd => update (emit (System cmd))
       | None => raise TypeError
       end.

(** Writes out all output files *)
Definition export : M unit :=
  g <- self ;;
  for_each (svgouts g) export_item.

Definition show_preview : M unit :=
  try_except
    (g <- self ;;
     match svgouts g with
     | [] => raise IndexError
     | (line, _) :: _ =>
         d <- get_line_desc line ;;
         outfile <- get_output d ;;
         if os_name env =? "posix"
         then update (emit (System ("xdg-open " ++ dquote ++ outfile ++ dquote)))
         else if os_name env =? "os2"
         then update (emit (System ("open " ++ dquote ++ outfile ++ dquote)))
         else if (os_name env =? "nt") && has_startfile env
         then update (emit (OpenPreview outfile))
         else raise TypeError
     end)
    (errormsg msg_preview).

(** Delete temporary svg files and directory *)
Definition clean : M unit :=
  g <- self ;;
  (if negb (format (options g) =? "svg")
   then for_each (svgouts g) (fun item => os_remove (snd item))
   else ret tt) ;;
  os_rmdir.

(** Do the work *)
Definition effect : M unit :=
  g <- self ;;
  update (set_format (lower (format (options g)))) ;;
  handle_csv ;;
  (if var_type (options g) =? "name"
   then create_svg_name
   else create_svg_number) ;;
  export ;;
  (if lower (preview (options g)) =? "true"
   then show_preview
   else ret tt) ;;
  clean.
End Methods.

(** ** Definitions used to state the properties *)

(** The token of Stage B for a key. *)
Definition token (k : string) : string := "%VAR_" ++ k ++ "%".

(** Every occurrence of [old] in [a ++ rest] that starts inside [a] ends
    inside [a]. *)
Fixpoint no_straddle (old a rest : string) : bool :=
  match a with
  | "" => true
  | String _ a' =>
      (negb (prefix old (a ++ rest))
       || (String.length old <=? String.length a)%nat)
      && no_straddle old a' rest
  end.

(** No occurrence of [old] in [m ++ b] starts inside [m]. *)
Fixpoint no_start (old m b : string) : bool :=
  match m with
  | "" => true
  | String _ m' => negb (prefix old (m ++ b)) && no_start old m' b
  end.

(** No occurrence of [old] in [a ++ m ++ b] overlaps [m]. *)
Definition clear_of (old a m b : string) : bool :=
  no_straddle old a (m ++ b) && no_start old m b.

(** In [a ++ %VAR_x% ++ b], no occurrence of the token of a key overlaps
    the token of [x] at the time Stage B replaces that key, that is, in
    the text as the keys before it have left it. *)
Fixpoint token_kept (d : name_dict) (a x b : string) : bool :=
  match d with
  | [] => true
  | (k, v) :: d' =>
      clear_of (token k) a (token x) b
      && token_kept d' (replace a (token k) (escape v)) x
           (replace b (token k) (escape v))
  end.

(** XML text escaping character by character, of the three characters
    [&], [>] and [<]. *)
Definition escape_char (c : ascii) : string :=
  if Ascii.eqb c "&" then "&amp;"
  else if Ascii.eqb c ">" then "&gt;"
  else if Ascii.eqb c "<" then "&lt;"
  else String c "".

Fixpoint escape_chars (s : string) : string :=
  match s with
  | "" => ""
  | String c s' => escape_char c ++ escape_chars s'
  end.

(** Every character equal to [a] replaced by the string [new]. *)
Fixpoint subst_char (a : ascii) (new : string) (s : string) : string :=
  match s with
  | "" => ""
  | String c s' =>
      if Ascii.eqb c a then new ++ subst_char a new s'
      else String c (subst_char a new s')
  end.

(** Every ampersand of [s] starts one of the three entities that
    [escape] produces. *)
Fixpoint amp_ok (s : string) : bool :=
  match s with
  | "" => true
  | String c s' =>
      (if Ascii.eqb c "&"
       then prefix "amp;" s' || prefix "gt;" s' || prefix "lt;" s'
       else true) && amp_ok s'
  end.

(** The truthiness rule in the words of the specification:
    [bool(v) and v.lower() not in {"0", "false", "no"}]. *)
Definition is_true (v : string) : bool :=
  negb (String.length v =? 0)%nat &&
  negb (existsb (String.eqb (lower v)) ["0"; "false"; "no"]).

(** Stage A in the words of the specification, over rules already parsed
    into (literal, column) pairs: either the text after all rules, or the
    column whose lookup missed. *)
Inductive stage_a_result :=
| Substituted (text : string)
| UnknownColumnReference (column : string).

Fixpoint stage_a (rules : list (string * string)) (d : name_dict)
  (text : string) : stage_a_result :=
  match rules with
  | [] => Substituted text
  | (literal, column) :: rules' =>
      if str_in literal text
      then match dict_get String.eqb d column with
           | None => UnknownColumnReference column
           | Some v => stage_a rules' d (replace text literal (escape v))
           end
      else stage_a rules' d text
  end.

Definition set_children (cs : list element) (e : element) : element :=
  let 'Element t a x _ tl := e in Element t a x cs tl.

(** The layer filter by recursion on the tree: a group is treated, then,
    unless it was emptied, its children are. *)
Fixpoint filter_tree (d : name_dict) (e : element) : element :=
  let 'Element t a x cs tl := e in
  let e1 := if t =? addNS "g" NSS_svg then snd (filter_group d e) else e in
  set_children
    (match children e1 with
     | [] => []
     | _ :: _ => map (filter_tree d) cs
     end) e1.

(** One round of the layer loop, on the tree alone. *)
Definition tree_step (d : name_dict) (t : element) (p : path) : element :=
  match subtree t p with
  | Some g => replace_at p (snd (filter_group d g)) t
  | None => t
  end.

(** Several events appended to the trace. *)
Definition emits (es : list event) (g : Generator) : Generator :=
  fold_left (fun g e => emit e g) es g.

(** The output path of a row under header [h]. *)
Definition resolved_output (o : Options) (h : list string) (line : row) : string :=
  expand_vars (output o) (dict_of String.eqb (zip h line)).

(** The move of an item in the native format succeeds or raises OSError,
    the exception the export handles. *)
Definition move_handled (env : World) (o : Options) (h : list string)
  (item : row * string) : bool :=
  match shutil_move env (snd item) (resolved_output o h (fst item)) with
  | None | Some OSError => true
  | Some _ => false
  end.

(** What the export of one item does in the native format when the move
    is handled: the file is moved, or the failure is reported. *)
Definition move_event (env : World) (o : Options) (h : list string)
  (item : row * string) : event :=
  let outfile := resolved_output o h (fst item) in
  match shutil_move env (snd item) outfile with
  | None => MoveFile (snd item) outfile
  | Some _ => Errormsg (msg_cannot_create outfile)
  end.

(** The rendering of one item in format [fmt]. *)
Definition render_event (o : Options) (h : list string) (fmt : string)
  (item : row * string) : event :=
  System (inkscape_cmd (snd item) fmt (dpi o) (resolved_output o h (fst item))).

(** The file an event takes out of the temporary directory. *)
Definition removed_by (e : event) : list string :=
  match e with
  | MoveFile src _ => [src]
  | Remove f => [f]
  | _ => []
  end.

(** A computation that leaves self.header as it is. *)
Definition keeps_header {A} (m : M A) : Prop :=
  forall g, header (snd (m g)) = header g.

(** ** Sample data *)

Definition svg_g : string := addNS "g" NSS_svg.
Definition label_attr : string := addNS "label" NSS_inkscape.

Definition sample_layer : element :=
  Element svg_g [(label_attr, "%IF_a% %UNLESS_b%"); ("style", "display:none")]
    None [Element "rect" [] None [] None] None.

Definition sample_root : element := Element "svg" [] None [sample_layer] None.

Definition sample_options : Options :=
  {| preview := "false"; extra_vars := "FOO=>name|BAR=>age"; format := "svg";
     dpi := "90"; var_type := "name"; datafile := "data.csv";
     output := "%VAR_name%.svg" |}.

Definition sample_world : World :=
  {| csv_rows := fun _ => Some [];
     svg_lines := ["<svg>FOO %VAR_name%</svg>"];
     fromstring := fun s => Some (Element "svg" [] (Some s) [] None);
     tostring := fun e => match text e with Some s => s | None => "" end;
     mktemp := fun n => "tmp" ++ str n ++ ".svg";
     writable := fun _ => true;
     shutil_move := fun _ dst => if dst =? "Bob.svg" then Some OSError else None;
     os_name := "posix";
     rsvg_present := false;
     has_startfile := false |}.

Definition jpg_options : Options :=
  {| preview := "false"; extra_vars := ""; format := "jpg";
     dpi := "90"; var_type := "name"; datafile := "data.csv";
     output := "%VAR_name%_jpg.jpg" |}.

Definition index_options : Options :=
  {| preview := "false"; extra_vars := ""; format := "pdf";
     dpi := "90"; var_type := "number"; datafile := "data.csv";
     output := "%VAR_0%.pdf" |}.

(** A Generator after the documents of three rows were written. *)
Definition three_rows (o : Options) : Generator :=
  set_svgouts [(["Alice"], "tmp0.svg"); (["Bob"], "tmp1.svg");
               (["Carol"], "tmp2.svg")]
    (set_header ["name"] (init o)).

(** A world in which the data file cannot be opened. *)
Definition unreadable_world : World :=
  {| csv_rows := fun _ => None;
     svg_lines := svg_lines sample_world;
     fromstring := fromstring sample_world;
     tostring := tostring sample_world;
     mktemp := mktemp sample_world;
     writable := writable sample_world;
     shutil_move := shutil_move sample_world;
     os_name := "posix";
     rsvg_present := false;
     has_startfile := false |}.

(** A world whose data file holds the given rows. *)
Definition world_with (rows : list row) : World :=
  {| csv_rows := fun _ => Some rows;
     svg_lines := svg_lines sample_world;
     fromstring := fromstring sample_world;
     tostring := tostring sample_world;
     mktemp := mktemp sample_world;
     writable := writable sample_world;
     shutil_move := shutil_move sample_world;
     os_name := "posix";
     rsvg_present := false;
     has_startfile := false |}.

Definition pdf_options : Options :=
  {| preview := "false"; extra_vars := "FOO=>name|"; format := "pdf";
     dpi := "90"; var_type := "name"; datafile := "data.csv";
     output := "%VAR_name%.pdf" |}.

(** [sep.join(pieces)] *)
Fixpoint join (sep : string) (pieces : list string) : string :=
  match pieces with
  | [] => ""
  | [x] => x
  | x :: rest => x ++ sep ++ join sep rest
  end.

(** A replacement rule as it is written in the extra-vars option. *)
Definition rule_string (r : string * string) : string :=
  fst r ++ "=>" ++ snd r.

(** A rule that can be written in the option and read back: neither part
    holds one of the two separators. *)
Definition plain_rule (r : string * string) : Prop :=
  str_in "|" (fst r) = false /\ str_in "|" (snd r) = false /\
  str_in "=>" (fst r) = false /\ str_in "=>" (snd r) = false.

(** The warnings of the group that the query found at [p]. *)
Definition group_msgs (d : name_dict) (root : element) (p : path) : list string :=
  match subtree root p with
  | Some g => fst (filter_group d g)
  | None => []
  end.

(** A group that is not a layer, or whose label has no percent sign. *)
Definition plain_group (g : element) : Prop :=
  match dict_get String.eqb (attrib g) (addNS "label" NSS_inkscape) with
  | None => True
  | Some label => str_in "%" label = false
  end.

Definition unless_layer : element :=
  Element svg_g [("style", "display:none"); (label_attr, "Draft %UNLESS_final%")]
    (Some "text") [Element "rect" [] None [] None] None.

(** Two states that differ at most in their trace. *)
Definition same_fields (g g' : Generator) : Prop :=
  options g' = options g /\ header g' = header g /\ data g' = data g /\
  svgouts g' = svgouts g /\ ntemp g' = ntemp g.

(** A computation whose only effect on the Generator is on the trace. *)
Definition only_traces {A} (m : M A) : Prop :=
  forall g, same_fields g (snd (m g)).

(** The temporary names handed out from the [n]-th on, paired with the
    rows they are made for. *)
Definition row_files (env : World) (n : nat) (rows : list row)
  : list (row * string) :=
  combine rows (map (mktemp env) (seq n (List.length rows))).

(** A Generator whose data repeats a row. *)
Definition repeated_rows : Generator :=
  set_data [["Alice"]; ["Bob"]; ["Alice"]]
    (set_header ["name"] (init sample_options)).

(** A world without the directory [missing]: moving a file into it makes
    Python 2's shutil.move raise IOError. *)
Definition missing_dir_world : World :=
  {| csv_rows := fun _ => Some [["name"]; ["Alice"]; ["missing/Bob"]; ["Carol"]];
     svg_lines := svg_lines sample_world;
     fromstring := fromstring sample_world;
     tostring := tostring sample_world;
     mktemp := mktemp sample_world;
     writable := writable sample_world;
     shutil_move := fun _ dst => if prefix "missing/" dst then Some IOError else None;
     os_name := "posix";
     rsvg_present := false;
     has_startfile := false |}.

(** A Generator after the documents of its three rows were written. *)
Definition slash_rows : Generator :=
  set_svgouts [(["Alice"], "tmp0.svg"); (["missing/Bob"], "tmp1.svg");
               (["Carol"], "tmp2.svg")]
    (set_header ["name"] (init sample_options)).

Definition plain_pdf_options : Options :=
  {| preview := "false"; extra_vars := ""; format := "pdf";
     dpi := "90"; var_type := "name"; datafile := "data.csv";
     output := "%VAR_name%.pdf" |}.

(** The Generator after the documents of the rows were written. *)
Definition written (o : Options) (rows : list row) : Generator :=
  snd (create_svg_name sample_world
         (set_data rows (set_header ["name"] (init o)))).

(** * Properties *)

(** ** Python strings *)

Lemma append_assoc' (a b c : string) : (a ++ b) ++ c = a ++ (b ++ c).
Proof. induction a; simpl; congruence. Qed.

Lemma append_nil_r (a : string) : a ++ "" = a.
Proof. induction a; simpl; congruence. Qed.

Lemma prefix_nil (s : string) : prefix "" s = true.
Proof. destruct s; reflexivity. Qed.

Lemma prefix_refl (s : string) : prefix s s = true.
Proof.
  induction s as [|c s IH]; simpl; [reflexivity|].
  destruct (ascii_dec c c); [exact IH | congruence].
Qed.

Lemma prefix_cons (a b : ascii) (s t : string) :
  prefix (String a s) (String b t) = Ascii.eqb a b && prefix s t.
Proof.
  simpl. destruct (ascii_dec a b) as [->|n].
  - now rewrite Ascii.eqb_refl.
  - apply Ascii.eqb_neq in n. now rewrite n.
Qed.

Lemma prefix_app (s t : string) : prefix s (s ++ t) = true.
Proof.
  induction s as [|c s IH]; simpl; [apply prefix_nil|].
  destruct (ascii_dec c c); [exact IH | congruence].
Qed.

Lemma str_in_prefix (sub s : string) : prefix sub s = true -> str_in sub s = true.
Proof. intros H. destruct s; simpl in *; rewrite H; reflexivity. Qed.

Lemma str_in_cons (sub : string) (c : ascii) (s : string) :
  str_in sub (String c s) = false -> str_in sub s = false.
Proof. simpl. intros H. apply orb_false_iff in H. tauto. Qed.

Lemma str_in_not_prefix (sub s : string) :
  str_in sub s = false -> prefix sub s = false.
Proof.
  intros H. destruct s; simpl in H; apply orb_false_iff in H; tauto.
Qed.

(** [s.find(sub) < 0] says that [sub] does not occur in [s]. *)
Lemma find_neg (s sub : string) :
  (find s sub <? 0)%Z = negb (str_in sub s).
Proof.
  induction s as [|c s IH].
  - cbn [find str_in]. destruct (prefix sub ""); reflexivity.
  - cbn [find str_in].
    destruct (prefix sub (String c s)); [reflexivity|].
    cbn [orb]. rewrite <- IH.
    destruct (find s sub <? 0)%Z eqn:E; [reflexivity|].
    apply Z.ltb_ge in E. apply Z.ltb_ge. lia.
Qed.

Lemma replace_go_skip (old new : string) (s : string) :
  replace_go old new (String.length s) s = "".
Proof. induction s as [|c s IH]; simpl; auto. Qed.

Lemma replace_go_absent (old new s : string) :
  str_in old s = false -> replace_go old new 0 s = s.
Proof.
  induction s as [|c s IH]; intros H; [reflexivity|].
  cbn [replace_go]. rewrite (str_in_not_prefix _ _ H).
  f_equal. apply IH. exact (str_in_cons _ _ _ H).
Qed.

(** Replacing a string that does not occur changes nothing. *)
Lemma replace_absent (s old new : string) :
  str_in old s = false -> replace s old new = s.
Proof.
  intros H. destruct old as [|a old].
  - destruct s; discriminate H.
  - unfold replace. now apply replace_go_absent.
Qed.

(** A text that is exactly [old] becomes [new]. *)
Lemma replace_self (old new : string) : replace old old new = new.
Proof.
  destruct old as [|a old]; [reflexivity|].
  unfold replace. cbn [replace_go]. rewrite prefix_refl.
  replace (String.length (String a old) - 1) with (String.length old)
    by (simpl; lia).
  rewrite replace_go_skip. apply append_nil_r.
Qed.



Lemma replace_char (a : ascii) (new s : string) :
  replace s (String a "") new = subst_char a new s.
Proof.
  unfold replace. induction s as [|c s IH]; [reflexivity|].
  cbn [replace_go subst_char]. rewrite prefix_cons, prefix_nil, andb_true_r.
  rewrite Ascii.eqb_sym. destruct (Ascii.eqb c a); simpl; now rewrite IH.
Qed.

Lemma subst_char_app (a : ascii) (new s t : string) :
  subst_char a new (s ++ t) = subst_char a new s ++ subst_char a new t.
Proof.
  induction s as [|c s IH]; simpl; [reflexivity|].
  destruct (Ascii.eqb c a); simpl; rewrite IH; [|reflexivity].
  now rewrite append_assoc'.
Qed.

(** [escape] rewrites each character on its own: the three replacements
    do not interfere. *)
Lemma escape_chars_eq (data : string) : escape data = escape_chars data.
Proof.
  unfold escape.
  change "&" with (String "&"%char "").
  change ">" with (String ">"%char "").
  change "<" with (String "<"%char "").
  rewrite !replace_char.
  induction data as [|c s IH]; [reflexivity|].
  cbn [subst_char escape_chars]. unfold escape_char.
  destruct (Ascii.eqb c "&") eqn:E1.
  - rewrite !subst_char_app, IH. reflexivity.
  - cbn [subst_char]. destruct (Ascii.eqb c ">") eqn:E2.
    + rewrite !subst_char_app, IH. reflexivity.
    + cbn [subst_char]. destruct (Ascii.eqb c "<") eqn:E3.
      * rewrite IH. reflexivity.
      * rewrite IH. reflexivity.
Qed.

Lemma str_in_char (a c : ascii) (s : string) :
  str_in (String a "") (String c s) = Ascii.eqb a c || str_in (String a "") s.
Proof. cbn [str_in]. now rewrite prefix_cons, prefix_nil, andb_true_r. Qed.

Lemma str_in_char_app (a : ascii) (s t : string) :
  str_in (String a "") (s ++ t) = str_in (String a "") s || str_in (String a "") t.
Proof.
  induction s as [|c s IH].
  - reflexivity.
  - cbn [append]. rewrite !str_in_char, IH. now rewrite orb_assoc.
Qed.

(** A string whose first character does not occur does not occur. *)
Lemma str_in_first_char (a : ascii) (x s : string) :
  str_in (String a "") s = false -> str_in (String a x) s = false.
Proof.
  induction s as [|c s IH]; intros H.
  - reflexivity.
  - rewrite str_in_char in H. apply orb_false_iff in H as [Hc Hs].
    cbn [str_in]. rewrite prefix_cons, Hc. cbn [andb orb]. now apply IH.
Qed.

Lemma escape_char_other (c : ascii) :
  c <> "&"%char -> c <> ">"%char -> c <> "<"%char ->
  escape_char c = String c "".
Proof.
  intros H1 H2 H3. unfold escape_char.
  apply Ascii.eqb_neq in H1, H2, H3. now rewrite H1, H2, H3.
Qed.

Lemma escape_chars_no_lt_gt (v : string) :
  str_in "<" (escape_chars v) = false /\ str_in ">" (escape_chars v) = false.
Proof.
  induction v as [|c v [IH1 IH2]]; [split; reflexivity|].
  cbn [escape_chars]. change "<" with (String "<"%char "") in *.
  change ">" with (String ">"%char "") in *.
  rewrite !str_in_char_app, IH1, IH2, !orb_false_r.
  unfold escape_char.
  destruct (Ascii.eqb c "&") eqn:E1; [split; reflexivity|].
  destruct (Ascii.eqb c ">") eqn:E2; [split; reflexivity|].
  destruct (Ascii.eqb c "<") eqn:E3; [split; reflexivity|].
  rewrite !str_in_char. cbn [str_in prefix orb].
  rewrite (Ascii.eqb_sym "<"), (Ascii.eqb_sym ">"), E2, E3. split; reflexivity.
Qed.

Lemma escape_chars_amp_ok (v : string) : amp_ok (escape_chars v) = true.
Proof.
  induction v as [|c v IH]; [reflexivity|].
  cbn [escape_chars]. unfold escape_char.
  destruct (Ascii.eqb c "&") eqn:E1; [simpl; rewrite prefix_nil; exact IH|].
  destruct (Ascii.eqb c ">") eqn:E2; [simpl; rewrite prefix_nil; exact IH|].
  destruct (Ascii.eqb c "<") eqn:E3; [simpl; rewrite prefix_nil; exact IH|].
  cbn [append amp_ok]. now rewrite E1, IH.
Qed.

Lemma token_absent (k line : string) :
  str_in "%" line = false -> str_in (token k) line = false.
Proof. apply (str_in_first_char "%"). Qed.

Lemma prefix_app_l (old s t : string) :
  prefix old s = true -> prefix old (s ++ t) = true.
Proof.
  revert s. induction old as [|a old IH]; intros s H; [apply prefix_nil|].
  destruct s as [|c s]; [discriminate H|].
  cbn [append]. rewrite prefix_cons in *.
  apply andb_true_iff in H as [H1 H2]. now rewrite H1, IH.
Qed.

(** A string found at the start of [s ++ t] that is no longer than [s]
    lies within [s]. *)
Lemma prefix_app_short (old s t : string) :
  prefix old (s ++ t) = true ->
  String.length old <= String.length s ->
  prefix old s = true.
Proof.
  revert s. induction old as [|a old IH]; intros s H Hl; [apply prefix_nil|].
  destruct s as [|c s]; [cbn in Hl; lia|].
  cbn [append] in H. rewrite prefix_cons in *.
  apply andb_true_iff in H as [H1 H2]. rewrite H1.
  apply IH; [exact H2 | cbn in Hl; lia].
Qed.

Lemma replace_go_no_start (old new b : string) :
  forall m, no_start old m b = true ->
            replace_go old new 0 (m ++ b) = m ++ replace_go old new 0 b.
Proof.
  induction m as [|c m IH]; intros H; [reflexivity|].
  cbn [no_start] in H. apply andb_true_iff in H as [H1 H2].
  apply negb_true_iff in H1. cbn [append] in H1 |- *.
  cbn [replace_go]. rewrite H1. now rewrite IH.
Qed.

Lemma replace_go_around (old new m b : string) :
  no_start old m b = true ->
  forall (a : string) (n : nat),
    n <= String.length a ->
    no_straddle old a (m ++ b) = true ->
    replace_go old new n (a ++ m ++ b)
    = replace_go old new n a ++ m ++ replace_go old new 0 b.
Proof.
  intros Hm. induction a as [|x a IH]; intros n Hn Ha.
  - cbn in Hn. assert (n = 0) by lia. subst n. cbn [append replace_go].
    now apply replace_go_no_start.
  - cbn [no_straddle] in Ha. apply andb_true_iff in Ha as [Ha1 Ha2].
    cbn [append replace_go]. destruct n as [|n].
    + destruct (prefix old (String x (a ++ m ++ b))) eqn:E.
      * cbn [append] in Ha1. rewrite E in Ha1. cbn [negb orb] in Ha1.
        apply Nat.leb_le in Ha1.
        change (String x (a ++ m ++ b)) with (String x a ++ (m ++ b)) in E.
        rewrite (prefix_app_short old (String x a) (m ++ b) E Ha1).
        rewrite IH by (cbn in Ha1; lia || assumption).
        now rewrite append_assoc'.
      * destruct (prefix old (String x a)) eqn:E1.
        -- apply (prefix_app_l _ _ (m ++ b)) in E1. cbn [append] in E1.
           congruence.
        -- cbn [append]. now rewrite IH by (lia || assumption).
    + apply IH; [cbn in Hn; lia | assumption].
Qed.

(** A replacement works on both sides of a stretch of text that no
    occurrence of [old] overlaps, and leaves that stretch alone. *)
Lemma replace_around (old new a m b : string) :
  old <> "" ->
  clear_of old a m b = true ->
  replace (a ++ m ++ b) old new = replace a old new ++ m ++ replace b old new.
Proof.
  intros Hne H. unfold clear_of in H. apply andb_true_iff in H as [H1 H2].
  destruct old as [|c old]; [congruence|].
  unfold replace. apply replace_go_around; [assumption | lia | assumption].
Qed.

(** ** Stage B *)

(** The short cut on the percent sign is transparent: Stage B is one
    replacement per item of the descriptor, in iteration order. *)
Lemma expand_vars_fold (line : string) (d : name_dict) :
  expand_vars line d =
  fold_left (fun l '(k, v) => replace l (token k) (escape v)) d line.
Proof.
  unfold expand_vars. destruct (str_in "%" line) eqn:E; [reflexivity|].
  cbn [negb]. induction d as [|[k v] d IH]; [reflexivity|].
  cbn [fold_left]. rewrite replace_absent by now apply token_absent.
  exact IH.
Qed.

Lemma expand_vars_unmatched (line : string) (d : name_dict) :
  (forall k v, In (k, v) d -> str_in (token k) line = false) ->
  expand_vars line d = line.
Proof.
  rewrite expand_vars_fold. induction d as [|[k v] d IH]; intros H.
  - reflexivity.
  - cbn [fold_left]. rewrite replace_absent by (apply (H k v); now left).
    apply IH. intros k' v' Hin. apply (H k' v'). now right.
Qed.

Lemma token_not_empty (k : string) : token k <> "".
Proof. discriminate. Qed.

(** Stage B works on both sides of a token that no occurrence of a key's
    token overlaps when that key is replaced. *)
Lemma expand_vars_around (d : name_dict) :
  forall a x b : string,
    token_kept d a x b = true ->
    expand_vars (a ++ token x ++ b) d
    = expand_vars a d ++ token x ++ expand_vars b d.
Proof.
  intros a x b. rewrite !expand_vars_fold. revert a b.
  induction d as [|[k v] d IH]; intros a b H; [reflexivity|].
  cbn [token_kept] in H. apply andb_true_iff in H as [H1 H2].
  cbn [fold_left].
  rewrite (replace_around _ _ _ _ _ (token_not_empty k) H1).
  now apply IH.
Qed.

(** C4: Stage B returns a text without a percent sign unchanged;
    otherwise (and then too, vacuously) it performs, for every item
    (key, value) of the row descriptor in turn, the replacement of every
    occurrence of the token %VAR_key% by the escaped value, and raises no
    error.  A text in which no token of a key occurs comes back
    unchanged.  A token %VAR_x% is left untouched, with the text before
    and after it going through the stage on its own, provided that no
    occurrence of a key's token overlaps it when that key is replaced. *)
Theorem expand_vars_stage_b (line : string) (d : name_dict) :
  (str_in "%" line = false -> expand_vars line d = line) /\
  expand_vars line d =
    fold_left (fun l '(k, v) => replace l ("%VAR_" ++ k ++ "%") (escape v)) d line /\
  ((forall k v, In (k, v) d -> str_in ("%VAR_" ++ k ++ "%") line = false) ->
   expand_vars line d = line) /\
  (forall x a b : string,
     line = a ++ ("%VAR_" ++ x ++ "%") ++ b ->
     token_kept d a x b = true ->
     expand_vars line d
     = expand_vars a d ++ ("%VAR_" ++ x ++ "%") ++ expand_vars b d) /\
  expand_vars "%VAR_x%, %VAR_name% & %VAR_name%" [("name", "A<B")]
    = "%VAR_x%, A&lt;B & A&lt;B".
Proof.
  split; [|split; [|split; [|split]]].
  - intros H. unfold expand_vars. now rewrite H.
  - apply expand_vars_fold.
  - apply expand_vars_unmatched.
  - intros x a b -> H. now apply expand_vars_around.
  - reflexivity.
Qed.

(** C4, the claim as worded: a token of a name that is not a key is
    changed when the token of a key starts at its closing percent sign. *)
Lemma token_sharing_percent_changed :
  str_in "%VAR_x%" "%VAR_x%VAR_y%" = true /\
  dict_get String.eqb [("y", "1")] "x" = None /\
  expand_vars "%VAR_x%VAR_y%" [("y", "1")] = "%VAR_x1" /\
  str_in "%VAR_x%" (expand_vars "%VAR_x%VAR_y%" [("y", "1")]) = false.
Proof. repeat split. Qed.

Lemma expand_vars_stage_b_witness :
  token_kept [("name", "A<B")] "id_" "x" "_%VAR_name%" = true /\
  expand_vars "id_%VAR_x%_%VAR_name%" [("name", "A<B")]
  = "id_%VAR_x%_A&lt;B".
Proof.
  split; [reflexivity|].
  exact (proj1 (proj2 (proj2 (proj2
           (expand_vars_stage_b "id_%VAR_x%_%VAR_name%" [("name", "A<B")]))))
           "x" "id_" "_%VAR_name%" eq_refl eq_refl).
Defined.

(** ** The truthiness rule *)

Lemma length_zero_eqb (v : string) : (String.length v =? 0)%nat = (v =? "").
Proof. destruct v; reflexivity. Qed.

Lemma if_test_is_true (v : string) : if_test v = is_true v.
Proof. unfold if_test, is_true, str_in_tuple. now rewrite length_zero_eqb. Qed.

Lemma unless_test_is_true (v : string) : unless_test v = negb (is_true v).
Proof.
  unfold unless_test, is_true, str_in_tuple. rewrite length_zero_eqb.
  now rewrite negb_andb, !negb_involutive.
Qed.

(** C5: the test of the IF block and the test of the UNLESS block are the
    truthiness rule and its negation; a value is true exactly when it is
    not empty and its lowercase form is none of 0, false, no; so 0, false,
    No and the empty string are false. *)
Theorem truthiness_rule :
  (forall v, if_test v = is_true v) /\
  (forall v, unless_test v = negb (is_true v)) /\
  (forall v, is_true v = true <->
             v <> "" /\ lower v <> "0" /\ lower v <> "false" /\ lower v <> "no") /\
  is_true "0" = false /\ is_true "false" = false /\
  is_true "No" = false /\ is_true "" = false.
Proof.
  split; [exact if_test_is_true|]. split; [exact unless_test_is_true|].
  split; [|repeat split; reflexivity].
  intros v. unfold is_true. rewrite length_zero_eqb. cbn [existsb].
  rewrite andb_true_iff, !negb_true_iff, !orb_false_iff, !String.eqb_neq.
  tauto.
Qed.

(** ** Stage A *)

(** The loop of [expand_extra_vars] over the replacement strings still to
    come follows [stage_a] on the rules they parse to. *)
Lemma expand_rules_stage_a (g : Generator) (d : name_dict)
  (rules : list (string * string)) :
  forall (ts : list string) (line : string),
    map (fun t => split t "=>") ts = map (fun r => [fst r; snd r]) rules ->
    for_fold ts line (fun t line =>
      match split t "=>" with
      | [old_txt; column] =>
          if (find line old_txt <? 0)%Z
          then ret line
          else
            match dict_get String.eqb d column with
            | Some v => ret (replace line old_txt (escape v))
            | None =>
                if var_type (options g) =? "name"
                then errormsg (msg_wrong_name column) ;;
                     raise (Exception (msg_wrong_name column))
                else errormsg (msg_wrong_number column) ;;
                     raise (Exception (msg_wrong_number column))
            end
      | _ =>
          errormsg (msg_unrecognized t) ;;
          raise (Exception (msg_unrecognized t))
      end) g =
    match stage_a rules d line with
    | Substituted text => (inr text, g)
    | UnknownColumnReference column =>
        let msg := if var_type (options g) =? "name"
                   then msg_wrong_name column
                   else msg_wrong_number column in
        (inl (Exception msg), emit (Errormsg msg) g)
    end.
Proof.
  induction rules as [|[literal column] rules IH]; intros ts line Hts.
  - destruct ts; [reflexivity | discriminate Hts].
  - destruct ts as [|t ts]; [discriminate Hts|].
    cbn [map fst snd] in Hts. injection Hts as Ht Hts.
    cbn [for_fold stage_a]. unfold bind at 1. rewrite Ht, find_neg.
    destruct (str_in literal line); cbn [negb].
    + destruct (dict_get String.eqb d column) as [v|].
      * unfold ret at 1. now apply IH.
      * destruct (var_type (options g) =? "name"); reflexivity.
    + unfold ret at 1. now apply IH.
Qed.

Lemma wrong_name_number_differ (column : string) :
  msg_wrong_name column <> msg_wrong_number column.
Proof. unfold msg_wrong_name, msg_wrong_number. simpl. discriminate. Qed.

(** C3: Stage A takes the rules in the order given, each on the text the
    earlier ones left; a rule whose literal does not occur is passed over
    without any lookup; a rule whose literal occurs and whose column is not
    in the row descriptor ends the run with an exception, reported first,
    whose message is the wrong-column-name one in name mode and the
    wrong-column-number one otherwise; a rule whose literal occurs and
    whose column is found replaces every occurrence of the literal by the
    escaped value. *)
Theorem expand_extra_vars_stage_a (g : Generator) (line : string)
  (d : name_dict) (rules : list (string * string)) :
  extra_vars (options g) <> "" ->
  map (fun t => split t "=>") (split (extra_vars (options g)) "|")
    = map (fun r => [fst r; snd r]) rules ->
  expand_extra_vars line d g =
    match stage_a rules d line with
    | Substituted text => (inr text, g)
    | UnknownColumnReference column =>
        let msg := if var_type (options g) =? "name"
                   then msg_wrong_name column
                   else msg_wrong_number column in
        (inl (Exception msg), emit (Errormsg msg) g)
    end
  /\ (forall column, msg_wrong_name column <> msg_wrong_number column).
Proof.
  intros Hne Hrules. split; [|exact wrong_name_number_differ].
  unfold expand_extra_vars, bind at 1, self.
  apply String.eqb_neq in Hne. rewrite Hne.
  now apply expand_rules_stage_a.
Qed.

Lemma expand_extra_vars_stage_a_witness :
  extra_vars (options (init sample_options)) <> "" /\
  map (fun t => split t "=>") (split (extra_vars (options (init sample_options))) "|")
    = map (fun r => [fst r; snd r]) [("FOO", "name"); ("BAR", "age")] /\
  expand_extra_vars "FOO is BAR" [("name", "A&B")] (init sample_options)
    = (inl (Exception (msg_wrong_name "age")),
       emit (Errormsg (msg_wrong_name "age")) (init sample_options)) /\
  expand_extra_vars "FOO and FOO" [("name", "A&B")] (init sample_options)
    = (inr "A&amp;B and A&amp;B", init sample_options).
Proof.
  split; [discriminate|]. split; [reflexivity|]. split.
  - exact (proj1 (expand_extra_vars_stage_a (init sample_options) "FOO is BAR"
             [("name", "A&B")] [("FOO", "name"); ("BAR", "age")]
             ltac:(discriminate) eq_refl)).
  - exact (proj1 (expand_extra_vars_stage_a (init sample_options) "FOO and FOO"
             [("name", "A&B")] [("FOO", "name"); ("BAR", "age")]
             ltac:(discriminate) eq_refl)).
Defined.

(** ** Escaping *)

Lemma expand_vars_single (line k v : string) :
  expand_vars line [(k, v)] = replace line ("%VAR_" ++ k ++ "%") (escape v).
Proof. now rewrite expand_vars_fold. Qed.

Lemma expand_extra_vars_single (g : Generator) (line t old_txt column v : string) :
  extra_vars (options g) <> "" ->
  split (extra_vars (options g)) "|" = [t] ->
  split t "=>" = [old_txt; column] ->
  expand_extra_vars line [(column, v)] g
    = (inr (replace line old_txt (escape v)), g).
Proof.
  intros Hne Hs Ht.
  unfold expand_extra_vars, bind at 1, self.
  apply String.eqb_neq in Hne. rewrite Hne, Hs.
  rewrite (expand_rules_stage_a g [(column, v)] [(old_txt, column)]) 
    by (cbn [map fst snd]; now rewrite Ht).
  cbn [stage_a dict_get]. rewrite String.eqb_refl.
  destruct (str_in old_txt line) eqn:E; [reflexivity|].
  now rewrite replace_absent.
Qed.

(** C2, as the code has it: a quote character goes through [escape]
    unchanged, and both stages put it raw into the text, here inside an
    attribute value, which it ends early. *)
Lemma quotes_not_escaped :
  escape (dquote ++ "'") = dquote ++ "'" /\
  expand_vars ("<text id=" ++ dquote ++ "%VAR_k%" ++ dquote ++ "/>")
              [("k", dquote)]
    = "<text id=" ++ dquote ++ dquote ++ dquote ++ "/>" /\
  fst (expand_extra_vars ("<text id=" ++ dquote ++ "FOO" ++ dquote ++ "/>")
         [("name", dquote)] (init sample_options))
    = inr ("<text id=" ++ dquote ++ dquote ++ dquote ++ "/>").
Proof. repeat split; reflexivity. Qed.

(** C2, amended: both stages insert a value after [escape], which
    rewrites the three characters [&], [>] and [<] into their entities and
    copies every other character, quote characters included; the inserted
    text has no [<] and no [>], and every [&] in it starts one of the
    entities. *)
Theorem escape_amp_lt_gt (v : string) :
  escape v = escape_chars v /\
  (forall c : ascii, c <> "&"%char -> c <> ">"%char -> c <> "<"%char ->
                     escape_char c = String c "") /\
  str_in "<" (escape v) = false /\
  str_in ">" (escape v) = false /\
  amp_ok (escape v) = true /\
  (forall line k,
     expand_vars line [(k, v)] = replace line ("%VAR_" ++ k ++ "%") (escape v)) /\
  (forall g line t old_txt column,
     extra_vars (options g) <> "" ->
     split (extra_vars (options g)) "|" = [t] ->
     split t "=>" = [old_txt; column] ->
     expand_extra_vars line [(column, v)] g
       = (inr (replace line old_txt (escape v)), g)).
Proof.
  rewrite escape_chars_eq.
  split; [reflexivity|]. split; [exact escape_char_other|].
  split; [apply escape_chars_no_lt_gt|]. split; [apply escape_chars_no_lt_gt|].
  split; [apply escape_chars_amp_ok|]. split.
  - intros line k. rewrite <- escape_chars_eq. apply expand_vars_single.
  - intros g line t old_txt column H1 H2 H3. rewrite <- escape_chars_eq.
    now apply (expand_extra_vars_single g line t).
Qed.

(** ** Element trees *)

Lemma element_ind' (P : element -> Prop) :
  (forall t a x cs tl, Forall P cs -> P (Element t a x cs tl)) ->
  forall e, P e.
Proof.
  intros step. fix IH 1. intros [t a x cs tl]. apply step.
  induction cs as [|c cs IHcs]; constructor; [apply IH | exact IHcs].
Qed.

Lemma update_nth_nil {A} (i : nat) (f : A -> A) : update_nth i f [] = [].
Proof. destruct i; reflexivity. Qed.

Lemma update_nth_ext {A} (f h : A -> A) (l : list A) :
  forall i, (forall c, nth_error l i = Some c -> f c = h c) ->
            update_nth i f l = update_nth i h l.
Proof.
  induction l as [|x l IH]; intros [|i] H; cbn [update_nth]; try reflexivity.
  - f_equal. now apply H.
  - f_equal. apply IH. intros c Hc. now apply H.
Qed.

Lemma update_nth_same {A} (f : A -> A) (l : list A) :
  forall i, (forall c, nth_error l i = Some c -> f c = c) ->
            update_nth i f l = l.
Proof.
  induction l as [|x l IH]; intros [|i] H; cbn [update_nth]; try reflexivity.
  - f_equal. now apply H.
  - f_equal. apply IH. intros c Hc. now apply H.
Qed.

Lemma update_nth_twice {A} (f h : A -> A) (l : list A) :
  forall i, update_nth i f (update_nth i h l) = update_nth i (fun c => f (h c)) l.
Proof.
  induction l as [|x l IH]; intros [|i]; cbn [update_nth]; try reflexivity.
  f_equal. apply IH.
Qed.

Lemma update_nth_app {A} (f : A -> A) (pre : list A) (c : A) (suf : list A) :
  update_nth (List.length pre) f (pre ++ c :: suf)%list = (pre ++ f c :: suf)%list.
Proof. induction pre as [|x pre IH]; cbn; [reflexivity | now rewrite IH]. Qed.

(** ** The layer filter *)

Section LayerFilter.
Variable d : name_dict.

(** A group comes out of the loop body as it was, shown, or cleared. *)
Lemma filter_group_shape (g : element) :
  snd (filter_group d g) = g \/
  snd (filter_group d g) = show g \/
  snd (filter_group d g) = clear g.
Proof.
  unfold filter_group.
  destruct (dict_get String.eqb (attrib g) _) as [label|]; [|now left].
  destruct (negb (str_in "%" label)); [now left|].
  destruct (re_match "%IF_" label) as [a|].
  - destruct (dict_get String.eqb d a) as [va|]; [|now left].
    destruct (if_test va); [now (right; left)|].
    destruct (re_match "%UNLESS_" label) as [b|]; [|now (right; right)].
    destruct (dict_get String.eqb d b) as [vb|]; [|now (right; right)].
    destruct (unless_test vb); now (right; right).
  - destruct (re_match "%UNLESS_" label) as [b|]; [|now left].
    destruct (dict_get String.eqb d b) as [vb|]; [|now left].
    destruct (unless_test vb); [now (right; left) | now (right; right)].
Qed.

Lemma tree_step_cons (t : string) (a : @dict string string) (x : option string)
  (cs : list element) (tl : option string) (i : nat) (q : path) :
  tree_step d (Element t a x cs tl) (i :: q)
  = Element t a x (update_nth i (fun c => tree_step d c q) cs) tl.
Proof.
  unfold tree_step at 1. cbn [subtree children].
  destruct (nth_error cs i) as [c|] eqn:Hc.
  - destruct (subtree c q) as [g|] eqn:Hg.
    + cbn [replace_at]. f_equal. apply update_nth_ext.
      intros c' Hc'. rewrite Hc in Hc'. injection Hc' as <-.
      unfold tree_step. now rewrite Hg.
    + f_equal. symmetry. apply update_nth_same.
      intros c' Hc'. rewrite Hc in Hc'. injection Hc' as <-.
      unfold tree_step. now rewrite Hg.
  - f_equal. symmetry. apply update_nth_same.
    intros c' Hc'. rewrite Hc in Hc'. discriminate.
Qed.

Lemma fold_tree_step_child (t : string) (a : @dict string string)
  (x : option string) (tl : option string) (i : nat) (ps : list path) :
  forall cs,
    fold_left (tree_step d) (map (cons i) ps) (Element t a x cs tl)
    = Element t a x (update_nth i (fun c => fold_left (tree_step d) ps c) cs) tl.
Proof.
  induction ps as [|q ps IH]; intros cs; cbn [map fold_left].
  - f_equal. symmetry. now apply update_nth_same.
  - rewrite tree_step_cons, IH, update_nth_twice. reflexivity.
Qed.

Lemma fold_walk_nil (f : element -> list path) (t : string)
  (a : @dict string string) (x : option string) (tl : option string)
  (cs : list element) :
  forall i,
    fold_left (tree_step d) (walk_with f i cs) (Element t a x [] tl)
    = Element t a x [] tl.
Proof.
  induction cs as [|c cs IH]; intros i; cbn [walk_with]; [reflexivity|].
  rewrite fold_left_app, fold_tree_step_child, update_nth_nil. apply IH.
Qed.

Lemma fold_walk (t : string) (a : @dict string string) (x : option string)
  (tl : option string) (suf : list element) :
  Forall (fun c => fold_left (tree_step d) (xpath_g c) c = filter_tree d c) suf ->
  forall pre,
    fold_left (tree_step d) (walk_with xpath_g (List.length pre) suf)
      (Element t a x (pre ++ suf)%list tl)
    = Element t a x (pre ++ map (filter_tree d) suf)%list tl.
Proof.
  induction 1 as [|c suf Hc _ IH]; intros pre; cbn [walk_with map].
  - reflexivity.
  - rewrite fold_left_app, fold_tree_step_child, update_nth_app, Hc.
    replace (pre ++ filter_tree d c :: suf)%list
      with ((pre ++ [filter_tree d c]) ++ suf)%list
      by now rewrite <- app_assoc.
    replace (S (List.length pre)) with (List.length (pre ++ [filter_tree d c])%list)
      by (rewrite length_app; cbn; lia).
    rewrite IH, <- app_assoc. reflexivity.
Qed.

(** The loop over the groups found beforehand computes the recursive
    filter. *)
Lemma fold_filter_tree (e : element) :
  fold_left (tree_step d) (xpath_g e) e = filter_tree d e.
Proof.
  induction e as [t a x cs tl IH] using element_ind'.
  cbn [xpath_g filter_tree]. rewrite fold_left_app.
  set (e := Element t a x cs tl).
  assert (H2 : forall e1, e1 = e \/ e1 = show e \/ e1 = clear e ->
            fold_left (tree_step d) (walk_with xpath_g 0 cs) e1
            = set_children (match children e1 with
                            | [] => []
                            | _ :: _ => map (filter_tree d) cs
                            end) e1).
  { intros e1 [-> | [-> | ->]].
    - subst e. cbn [children set_children].
      pose proof (fold_walk t a x tl cs IH []) as Hw.
      cbn [List.length app] in Hw. rewrite Hw. now destruct cs.
    - subst e. cbn [show set_attrib attrib children set_children].
      pose proof (fold_walk t (dict_del String.eqb a "style") x tl cs IH [])
        as Hw.
      cbn [List.length app] in Hw. rewrite Hw. now destruct cs.
    - subst e. cbn [clear tag children set_children]. apply fold_walk_nil. }
  destruct (t =? addNS "g" NSS_svg); cbn [fold_left].
  - apply H2. unfold tree_step. cbn [subtree replace_at].
    apply filter_group_shape.
  - apply H2. now left.
Qed.

Lemma snd_filter_step (root : element) (acc : list string * element) (p : path) :
  snd (filter_step d root acc p) = tree_step d (snd acc) p.
Proof.
  destruct acc as [msgs t]. unfold filter_step, tree_step. cbn [snd].
  destruct (subtree t p) as [g|].
  - now destruct (filter_group d g).
  - now destruct (subtree root p).
Qed.

Lemma snd_fold_filter_step (root : element) (ps : list path) :
  forall acc,
    snd (fold_left (filter_step d root) ps acc)
    = fold_left (tree_step d) ps (snd acc).
Proof.
  induction ps as [|p ps IH]; intros acc; cbn [fold_left]; [reflexivity|].
  now rewrite IH, snd_filter_step.
Qed.

(** The tree [filter_layers] leaves is the recursive filter of the
    parsed tree. *)
Lemma filter_layers_tree (root : element) :
  snd (filter_layers root d) = filter_tree d root.
Proof.
  unfold filter_layers. rewrite snd_fold_filter_step. apply fold_filter_tree.
Qed.
End LayerFilter.

Lemma children_set_children (cs : list element) (e : element) :
  children (set_children cs e) = cs.
Proof. now destruct e. Qed.

Lemma subtree_filter_tree (d : name_dict) (p : path) :
  forall e g g',
    subtree e p = Some g ->
    subtree (filter_tree d e) p = Some g' ->
    g' = filter_tree d g.
Proof.
  induction p as [|i q IH]; intros e g g'.
  - cbn [subtree]. now intros [= <-] [= <-].
  - destruct e as [t a x cs tl]. cbn [subtree filter_tree].
    rewrite children_set_children. cbn [children].
    destruct (children _) as [|c0 cs0].
    + intros _ H. destruct i; discriminate H.
    + rewrite nth_error_map. destruct (nth_error cs i) as [c|]; [|discriminate].
      cbn [option_map]. apply IH.
Qed.

Lemma match_here_percent (tag' s x : string) :
  match_here (String percent tag') s = Some x -> str_in "%" s = true.
Proof.
  unfold match_here. destruct (prefix (String percent tag') s) eqn:E; [|discriminate].
  intros _. destruct s as [|c s]; [discriminate E|].
  rewrite prefix_cons in E. apply andb_true_iff in E as [E _].
  apply Ascii.eqb_eq in E. subst c.
  apply str_in_prefix. change "%" with (String percent "").
  now rewrite prefix_cons, Ascii.eqb_refl, prefix_nil.
Qed.

(** A label in which a marker was found has a percent sign. *)
Lemma re_match_percent (tag' label x : string) :
  re_match (String percent tag') label = Some x -> str_in "%" label = true.
Proof.
  induction label as [|c rest IH]; cbn [re_match].
  - apply match_here_percent.
  - destruct (Ascii.eqb c newline); [apply match_here_percent|].
    destruct (re_match (String percent tag') rest) as [grp|].
    + intros H. cbn [str_in]. rewrite (IH H). apply orb_true_r.
    + apply match_here_percent.
Qed.

(** On a label carrying both markers, with both columns in the row, the
    IF block alone settles what the group becomes. *)
Lemma filter_group_both (d : name_dict) (g : element) (label a b va vb : string) :
  dict_get String.eqb (attrib g) (addNS "label" NSS_inkscape) = Some label ->
  re_match "%IF_" label = Some a ->
  re_match "%UNLESS_" label = Some b ->
  dict_get String.eqb d a = Some va ->
  dict_get String.eqb d b = Some vb ->
  filter_group d g = ([], if if_test va then show g else clear g).
Proof.
  intros Hl Ha Hb Hva Hvb. unfold filter_group.
  rewrite Hl, (re_match_percent _ _ _ Ha), Ha, Hva. cbn [negb].
  destruct (if_test va); [reflexivity|].
  rewrite Hb, Hvb. destruct (unless_test vb); reflexivity.
Qed.

(** C1, as the code has it: with both columns true the UNLESS evaluation
    would empty the group, and the group is kept; with both columns false
    the UNLESS evaluation would keep the group, and the group is empty. *)
Lemma unless_does_not_override :
  re_match "%IF_" "%IF_a% %UNLESS_b%" = Some "a" /\
  re_match "%UNLESS_" "%IF_a% %UNLESS_b%" = Some "b" /\
  unless_test "yes" = false /\
  snd (filter_layers sample_root [("a", "yes"); ("b", "yes")])
    = Element "svg" [] None
        [Element svg_g [(label_attr, "%IF_a% %UNLESS_b%")] None
           [Element "rect" [] None [] None] None] None /\
  unless_test "no" = true /\
  snd (filter_layers sample_root [("a", "no"); ("b", "no")])
    = Element "svg" [] None [Element svg_g [] None [] None] None.
Proof. repeat split; reflexivity. Qed.

(** C1, amended: on a layer group whose label carries both an IF and an
    UNLESS marker, with both columns in the row descriptor, the IF marker
    is evaluated first and its outcome is the one seen in the final tree.
    When the IF column is true the group is kept, its style attribute
    removed, and the UNLESS marker is not looked at; when it is false the
    group is cleared and stays so whatever the UNLESS column holds.  (A
    group below a cleared group is no longer in the final tree.) *)
Theorem layer_if_decides (d : name_dict) (root : element) (p : path)
  (g : element) (label a b va vb : string) :
  subtree root p = Some g ->
  tag g = addNS "g" NSS_svg ->
  dict_get String.eqb (attrib g) (addNS "label" NSS_inkscape) = Some label ->
  re_match "%IF_" label = Some a ->
  re_match "%UNLESS_" label = Some b ->
  dict_get String.eqb d a = Some va ->
  dict_get String.eqb d b = Some vb ->
  filter_group d g = ([], if if_test va then show g else clear g) /\
  forall g',
    subtree (snd (filter_layers root d)) p = Some g' ->
    g' = if if_test va
         then Element (tag g) (dict_del String.eqb (attrib g) "style") (text g)
                (map (fun c => snd (filter_layers c d)) (children g)) (tail g)
         else clear g.
Proof.
  intros Hp Ht Hl Ha Hb Hva Hvb.
  pose proof (filter_group_both d g label a b va vb Hl Ha Hb Hva Hvb) as Hg.
  split; [exact Hg|]. intros g' Hg'.
  rewrite filter_layers_tree in Hg'.
  rewrite (subtree_filter_tree d p root g g' Hp Hg').
  destruct g as [t at_ x cs tl]. cbn [tag] in Ht. subst t.
  cbn [filter_tree]. rewrite String.eqb_refl, Hg. cbn [snd tag attrib text children tail].
  destruct (if_test va).
  - cbn [show set_attrib attrib children set_children].
    f_equal. destruct cs as [|c cs]; [reflexivity|].
    apply map_ext. intros e. now rewrite filter_layers_tree.
  - reflexivity.
Qed.

Lemma layer_if_decides_witness :
  subtree sample_root [0] = Some sample_layer /\
  filter_group [("a", "yes"); ("b", "yes")] sample_layer
    = ([], show sample_layer) /\
  forall g',
    subtree (snd (filter_layers sample_root [("a", "yes"); ("b", "yes")])) [0]
      = Some g' ->
    g' = Element svg_g [(label_attr, "%IF_a% %UNLESS_b%")] None
           [Element "rect" [] None [] None] None.
Proof.
  split; [reflexivity|].
  exact (layer_if_decides [("a", "yes"); ("b", "yes")] sample_root [0]
           sample_layer "%IF_a% %UNLESS_b%" "a" "b" "yes" "yes"
           eq_refl eq_refl eq_refl eq_refl eq_refl eq_refl eq_refl).
Defined.

(** ** Export *)

Lemma trace_emits (es : list event) :
  forall g, trace (emits es g) = (trace g ++ es)%list.
Proof.
  induction es as [|e es IH]; intros g; cbn [emits fold_left].
  - now rewrite app_nil_r.
  - fold (emits es (emit e g)). rewrite IH. cbn [emit trace].
    now rewrite <- app_assoc.
Qed.

Lemma options_emits (es : list event) :
  forall g, options (emits es g) = options g.
Proof.
  induction es as [|e es IH]; intros g; cbn [emits fold_left]; [reflexivity|].
  fold (emits es (emit e g)). now rewrite IH.
Qed.

Lemma get_line_desc_header (g : Generator) (h : list string) (line : row) :
  header g = Some h ->
  get_line_desc line g = (inr (dict_of String.eqb (zip h line)), g).
Proof. intros H. unfold get_line_desc, bind, self. now rewrite H. Qed.

Section ExportLoop.
Variable env : World.
Variable h : list string.

Lemma export_item_svg (g : Generator) (item : row * string) :
  header g = Some h ->
  format (options g) = "svg" ->
  move_handled env (options g) h item = true ->
  export_item env item g = (inr tt, emit (move_event env (options g) h item) g).
Proof.
  intros Hh Hf Hm. destruct item as [line svgfile].
  unfold export_item. unfold bind at 1. rewrite (get_line_desc_header g h line Hh).
  unfold get_output, bind, self, ret. cbn beta iota.
  assert (Hj : (format (options g) =? "jpg") = false) by now rewrite Hf.
  rewrite Hj, Hf. cbn [String.eqb Ascii.eqb Bool.eqb].
  revert Hm. unfold move_handled, move_event, resolved_output. cbn [fst snd].
  destruct (shutil_move env svgfile _) as [[]|]; intros Hm;
    try discriminate Hm; reflexivity.
Qed.

Lemma export_item_svg_raises (g : Generator) (item : row * string) (e : exn) :
  header g = Some h ->
  format (options g) = "svg" ->
  shutil_move env (snd item) (resolved_output (options g) h (fst item)) = Some e ->
  e <> OSError ->
  export_item env item g = (inl e, g).
Proof.
  intros Hh Hf Hm He. destruct item as [line svgfile].
  unfold export_item. unfold bind at 1. rewrite (get_line_desc_header g h line Hh).
  unfold get_output, bind, self, ret. cbn beta iota.
  assert (Hj : (format (options g) =? "jpg") = false) by now rewrite Hf.
  rewrite Hj, Hf. cbn [String.eqb Ascii.eqb Bool.eqb].
  revert Hm. unfold resolved_output. cbn [fst snd]. intros Hm. rewrite Hm.
  destruct e; try reflexivity. now elim He.
Qed.

Lemma export_item_jpg (g : Generator) (item : row * string) :
  header g = Some h ->
  format (options g) = "jpg" ->
  export_item env item g
  = (inr tt,
     emit (System (inkscape_cmd (snd item) "png" (dpi (options g))
                     (replace (resolved_output (options g) h (fst item))
                              "jpg" "png")))
          (set_format "png" g)).
Proof.
  intros Hh Hf. destruct item as [line svgfile].
  unfold export_item. unfold bind at 1. rewrite (get_line_desc_header g h line Hh).
  unfold get_output, bind, self, ret. cbn beta iota. rewrite Hf. reflexivity.
Qed.

Lemma export_item_other (g : Generator) (item : row * string) :
  header g = Some h ->
  (format (options g) =? "jpg") = false ->
  (format (options g) =? "svg") = false ->
  export_item env item g
  = (inr tt, emit (render_event (options g) h (format (options g)) item) g).
Proof.
  intros Hh Hj Hs. destruct item as [line svgfile].
  unfold export_item. unfold bind at 1. rewrite (get_line_desc_header g h line Hh).
  unfold get_output, bind, self, ret. cbn beta iota. rewrite Hj, Hs. reflexivity.
Qed.

Lemma export_loop_svg (items : list (row * string)) :
  forall g,
    header g = Some h ->
    format (options g) = "svg" ->
    forallb (move_handled env (options g) h) items = true ->
    for_each items (export_item env) g
    = (inr tt, emits (map (move_event env (options g) h) items) g).
Proof.
  induction items as [|item items IH]; intros g Hh Hf Hm; [reflexivity|].
  cbn [forallb] in Hm. apply andb_true_iff in Hm. destruct Hm as [Hm Hms].
  cbn [for_each map]. unfold bind. rewrite (export_item_svg g item Hh Hf Hm).
  rewrite IH by assumption. reflexivity.
Qed.

Lemma export_loop_svg_raises (pre post : list (row * string))
  (item : row * string) (e : exn) :
  forall g,
    header g = Some h ->
    format (options g) = "svg" ->
    forallb (move_handled env (options g) h) pre = true ->
    shutil_move env (snd item) (resolved_output (options g) h (fst item)) = Some e ->
    e <> OSError ->
    for_each (pre ++ item :: post) (export_item env) g
    = (inl e, emits (map (move_event env (options g) h) pre) g).
Proof.
  induction pre as [|p pre IH]; intros g Hh Hf Hm Hi He.
  - cbn [app for_each map emits fold_left]. unfold bind.
    now rewrite (export_item_svg_raises g item e Hh Hf Hi He).
  - cbn [forallb] in Hm. apply andb_true_iff in Hm. destruct Hm as [Hm Hms].
    cbn [app for_each map]. unfold bind. rewrite (export_item_svg g p Hh Hf Hm).
    rewrite IH by assumption. reflexivity.
Qed.

Lemma export_loop_other (items : list (row * string)) :
  forall g,
    header g = Some h ->
    (format (options g) =? "jpg") = false ->
    (format (options g) =? "svg") = false ->
    for_each items (export_item env) g
    = (inr tt,
       emits (map (render_event (options g) h (format (options g))) items) g).
Proof.
  induction items as [|item items IH]; intros g Hh Hj Hs; [reflexivity|].
  cbn [for_each map]. unfold bind. rewrite (export_item_other g item Hh Hj Hs).
  rewrite IH by assumption. reflexivity.
Qed.
End ExportLoop.

(** C7: in the native format (svg), when the move of a row's file to its
    output path raises an exception other than OSError (in Python 2,
    shutil.move raises IOError when the destination cannot be created),
    the export stops with that exception: the rows before it have been
    moved or reported, this row gets no message, and the rows after it
    are not handled at all. *)
Theorem export_svg_move_error_escapes (env : World) (g : Generator)
  (h : list string) (pre post : list (row * string)) (line : row)
  (svgfile : string) (e : exn) :
  header g = Some h ->
  format (options g) = "svg" ->
  svgouts g = (pre ++ (line, svgfile) :: post)%list ->
  forallb (move_handled env (options g) h) pre = true ->
  shutil_move env svgfile (resolved_output (options g) h line) = Some e ->
  e <> OSError ->
  export env g = (inl e, emits (map (move_event env (options g) h) pre) g).
Proof.
  intros Hh Hf Hs Hp Hm He.
  unfold export, bind, self. rewrite Hs.
  now apply export_loop_svg_raises.
Qed.

(** C9: when the format is jpg, the first item of the export loop sets
    the format option to png and has jpg replaced by png in its output
    path; every later item is rendered as png to its output path as
    resolved, and the option stays png. *)
Theorem export_jpg_first_only (env : World) (g : Generator) (h : list string)
  (first : row * string) (rest : list (row * string)) :
  header g = Some h ->
  format (options g) = "jpg" ->
  svgouts g = first :: rest ->
  exists g',
    export env g = (inr tt, g') /\
    format (options g') = "png" /\
    trace g' =
      (trace g
         ++ System (inkscape_cmd (snd first) "png" (dpi (options g))
                      (replace (resolved_output (options g) h (fst first))
                               "jpg" "png"))
         :: map (fun item =>
                   System (inkscape_cmd (snd item) "png" (dpi (options g))
                             (resolved_output (options g) h (fst item))))
                rest)%list.
Proof.
  intros Hh Hf Hs.
  eexists. split; [|split].
  - unfold export, bind at 1, self. rewrite Hs. cbn [for_each]. unfold bind.
    rewrite (export_item_jpg env h g first Hh Hf).
    rewrite (export_loop_other env h rest) by reflexivity || assumption.
    reflexivity.
  - rewrite options_emits. reflexivity.
  - rewrite trace_emits. cbn [emit set_format trace].
    rewrite <- app_assoc. reflexivity.
Qed.

Lemma export_svg_move_error_escapes_witness :
  shutil_move missing_dir_world "tmp1.svg"
    (resolved_output sample_options ["name"] ["missing/Bob"]) = Some IOError /\
  export missing_dir_world slash_rows
  = (inl IOError, emits [MoveFile "tmp0.svg" "Alice.svg"] slash_rows) /\
  fst (effect missing_dir_world (init sample_options)) = inl IOError.
Proof.
  split; [reflexivity|]. split; [|reflexivity].
  exact (export_svg_move_error_escapes missing_dir_world slash_rows ["name"]
           [(["Alice"], "tmp0.svg")] [(["Carol"], "tmp2.svg")] ["missing/Bob"]
           "tmp1.svg" IOError eq_refl eq_refl eq_refl eq_refl eq_refl
           (fun H => eq_ind IOError
                       (fun e => match e with OSError => False | _ => True end)
                       I OSError H)).
Defined.

Lemma export_jpg_first_only_witness :
  exists g',
    export sample_world (three_rows jpg_options) = (inr tt, g') /\
    format (options g') = "png" /\
    trace g' =
      [System (inkscape_cmd "tmp0.svg" "png" "90" "Alice_png.png");
       System (inkscape_cmd "tmp1.svg" "png" "90" "Bob_jpg.jpg");
       System (inkscape_cmd "tmp2.svg" "png" "90" "Carol_jpg.jpg")].
Proof.
  exact (export_jpg_first_only sample_world (three_rows jpg_options) ["name"]
           (["Alice"], "tmp0.svg") [(["Bob"], "tmp1.svg"); (["Carol"], "tmp2.svg")]
           eq_refl eq_refl eq_refl).
Defined.

(** ** Empty data files *)

(** C8: in name mode, a data file without any row makes the run report
    that the file contains no data and end with that exception; nothing
    else has happened by then: no document was written, none exported. *)
Theorem empty_data_name_mode (env : World) (o : Options) :
  var_type o = "name" ->
  csv_rows env (datafile o) = Some [] ->
  effect env (init o)
    = (inl (Exception (msg_no_data (datafile o))),
       emit (Errormsg (msg_no_data (datafile o)))
            (set_format (lower (format o)) (init o))) /\
  trace (snd (effect env (init o))) = [Errormsg (msg_no_data (datafile o))] /\
  svgouts (snd (effect env (init o))) = [].
Proof.
  intros Hv Hc.
  assert (H : effect env (init o)
              = (inl (Exception (msg_no_data (datafile o))),
                 emit (Errormsg (msg_no_data (datafile o)))
                      (set_format (lower (format o)) (init o)))).
  { unfold effect, handle_csv, bind, self, update, errormsg, update, raise.
    cbn [init options set_format datafile var_type].
    rewrite Hc, Hv. reflexivity. }
  rewrite H. repeat split.
Qed.

Lemma empty_data_name_mode_witness :
  var_type sample_options = "name" /\
  csv_rows sample_world (datafile sample_options) = Some [] /\
  fst (effect sample_world (init sample_options))
    = inl (Exception (msg_no_data "data.csv")) /\
  trace (snd (effect sample_world (init sample_options)))
    = [Errormsg (msg_no_data "data.csv")].
Proof.
  split; [reflexivity|]. split; [reflexivity|].
  pose proof (empty_data_name_mode sample_world sample_options eq_refl eq_refl)
    as [H1 [H2 _]].
  split; [now rewrite H1 | exact H2].
Defined.

(** C10: in index mode, a data file without any row is read without
    complaint; building the header then takes the first element of the
    empty list of rows, and the run ends with an IndexError that nothing
    catches and nothing reports, not with the exception and message of
    C8. *)
Theorem empty_data_index_mode (env : World) (o : Options) :
  var_type o <> "name" ->
  csv_rows env (datafile o) = Some [] ->
  effect env (init o)
    = (inl IndexError, set_data [] (set_format (lower (format o)) (init o))) /\
  trace (snd (effect env (init o))) = [] /\
  handle_csv env (set_format (lower (format o)) (init o))
    = (inr tt, set_data [] (set_format (lower (format o)) (init o))).
Proof.
  intros Hv Hc. apply String.eqb_neq in Hv.
  assert (H : effect env (init o)
              = (inl IndexError,
                 set_data [] (set_format (lower (format o)) (init o)))).
  { unfold effect, handle_csv, create_svg_number, bind, self, update, ret, raise.
    cbn [init options set_format datafile var_type].
    rewrite Hc, Hv. reflexivity. }
  rewrite H. repeat split.
  unfold handle_csv, bind, self, update, ret.
  cbn [init options set_format datafile var_type].
  rewrite Hc, Hv. reflexivity.
Qed.

Lemma empty_data_index_mode_witness :
  var_type index_options <> "name" /\
  csv_rows sample_world (datafile index_options) = Some [] /\
  fst (effect sample_world (init index_options)) = inl IndexError /\
  trace (snd (effect sample_world (init index_options))) = [].
Proof.
  split; [discriminate|]. split; [reflexivity|].
  pose proof (empty_data_index_mode sample_world index_options
                ltac:(discriminate) eq_refl) as [H1 [H2 _]].
  split; [now rewrite H1 | exact H2].
Defined.

(** ** Row descriptors *)

Lemma dict_get_set (d : name_dict) (k v k' : string) :
  dict_get String.eqb (dict_set String.eqb d k v) k'
  = if k =? k' then Some v else dict_get String.eqb d k'.
Proof.
  induction d as [|[k0 v0] d IH]; cbn [dict_set dict_get].
  - reflexivity.
  - destruct (k0 =? k) eqn:E0; cbn [dict_get].
    + apply String.eqb_eq in E0. subst k0. now destruct (k =? k').
    + destruct (k0 =? k') eqn:E1; [|exact IH].
      apply String.eqb_eq in E1. subst k0. now rewrite String.eqb_sym, E0.
Qed.

Lemma dict_get_app (d1 d2 : name_dict) (k : string) :
  dict_get String.eqb (d1 ++ d2)%list k
  = match dict_get String.eqb d1 k with
    | Some v => Some v
    | None => dict_get String.eqb d2 k
    end.
Proof.
  induction d1 as [|[k0 v0] d1 IH]; cbn [app dict_get]; [reflexivity|].
  now destruct (k0 =? k).
Qed.

(** A lookup in [dict(pairs)] finds the last pair with that key. *)
Lemma dict_get_fold (pairs : list (string * string)) :
  forall (d0 : name_dict) (k : string),
    dict_get String.eqb
      (fold_left (fun d kv => dict_set String.eqb d (fst kv) (snd kv)) pairs d0) k
    = match dict_get String.eqb (rev pairs) k with
      | Some v => Some v
      | None => dict_get String.eqb d0 k
      end.
Proof.
  induction pairs as [|[k1 v1] pairs IH]; intros d0 k; cbn [fold_left rev].
  - reflexivity.
  - rewrite IH, dict_get_app, dict_get_set. cbn [fst snd dict_get].
    destruct (dict_get String.eqb (rev pairs) k); [reflexivity|].
    now destruct (k1 =? k).
Qed.

Lemma dict_get_of (pairs : list (string * string)) (k : string) :
  dict_get String.eqb (dict_of String.eqb pairs) k
  = dict_get String.eqb (rev pairs) k.
Proof.
  unfold dict_of. rewrite dict_get_fold.
  now destruct (dict_get String.eqb (rev pairs) k).
Qed.

Lemma dict_get_not_in (d : name_dict) (k : string) :
  ~ In k (map fst d) -> dict_get String.eqb d k = None.
Proof.
  induction d as [|[k0 v0] d IH]; intros H; cbn [dict_get]; [reflexivity|].
  destruct (k0 =? k) eqn:E.
  - apply String.eqb_eq in E. subst k0. exfalso. apply H. now left.
  - apply IH. intros Hin. apply H. now right.
Qed.

Lemma dict_get_in (d : name_dict) (k v : string) :
  NoDup (map fst d) -> In (k, v) d -> dict_get String.eqb d k = Some v.
Proof.
  induction d as [|[k0 v0] d IH]; intros Hnd Hin; [destruct Hin|].
  cbn [map fst] in Hnd. inversion Hnd as [|? ? Hnot Hnd']; subst.
  cbn [dict_get]. destruct Hin as [[= -> ->]|Hin].
  - now rewrite String.eqb_refl.
  - destruct (k0 =? k) eqn:E; [|now apply IH].
    apply String.eqb_eq in E. subst k0. exfalso. apply Hnot.
    change k with (fst (k, v)). now apply in_map.
Qed.

Lemma zip_firstn_cells {A B} (a : list A) :
  forall b : list B, zip a b = zip a (firstn (List.length a) b).
Proof.
  unfold zip. induction a as [|x a IH]; intros [|y b]; cbn; try reflexivity.
  now rewrite <- IH.
Qed.

Lemma zip_keys {A B} (a : list A) :
  forall b : list B, map fst (zip a b) = firstn (List.length b) a.
Proof.
  unfold zip. induction a as [|x a IH]; intros [|y b]; cbn; try reflexivity.
  now rewrite IH.
Qed.

Lemma zip_nth {A B} (a : list A) (da : A) (db : B) :
  forall (b : list B) (i : nat),
    i < List.length a -> i < List.length b ->
    In (nth i a da, nth i b db) (zip a b).
Proof.
  unfold zip. induction a as [|x a IH]; intros [|y b] [|i] Ha Hb; cbn in *; try lia.
  - now left.
  - right. apply IH; lia.
Qed.

Lemma NoDup_firstn {A} (n : nat) :
  forall l : list A, NoDup l -> NoDup (firstn n l).
Proof.
  induction n as [|n IH]; intros [|x l] H; cbn; try constructor.
  - inversion H as [|? ? Hnot Hnd]; subst. intros Hin. apply Hnot.
    rewrite <- (firstn_skipn n l). apply in_or_app. now left.
  - inversion H; subst. now apply IH.
Qed.

(** A header name whose position has no cell in the row is not a key. *)
Lemma line_desc_missing (h : list string) (line : row) (k : string) :
  ~ In k (firstn (List.length line) h) ->
  dict_get String.eqb (dict_of String.eqb (zip h line)) k = None.
Proof.
  intros H. rewrite dict_get_of. apply dict_get_not_in.
  rewrite map_rev, zip_keys. intros Hin. apply H. now apply in_rev.
Qed.

(** With distinct header names, the name at a position maps to the cell
    at that position. *)
Lemma line_desc_positional (h : list string) (line : row) (i : nat) :
  NoDup h -> i < List.length h -> i < List.length line ->
  dict_get String.eqb (dict_of String.eqb (zip h line)) (nth i h "")
  = Some (nth i line "").
Proof.
  intros Hnd Hh Hl. rewrite dict_get_of. apply dict_get_in.
  - rewrite map_rev, zip_keys. apply NoDup_rev. now apply NoDup_firstn.
  - apply -> in_rev. now apply zip_nth.
Qed.

(** *** self.header during the materialisation of the rows *)

Lemma keeps_ret {A} (a : A) : keeps_header (ret a).
Proof. intros g. reflexivity. Qed.

Lemma keeps_raise {A} (e : exn) : keeps_header (@raise A e).
Proof. intros g. reflexivity. Qed.

Lemma keeps_self : keeps_header self.
Proof. intros g. reflexivity. Qed.

Lemma keeps_update (f : Generator -> Generator) :
  (forall g, header (f g) = header g) -> keeps_header (update f).
Proof. intros H g. apply H. Qed.

Lemma keeps_errormsg (msg : string) : keeps_header (errormsg msg).
Proof. intros g. reflexivity. Qed.

Lemma keeps_bind {A B} (m : M A) (k : A -> M B) :
  keeps_header m -> (forall a, keeps_header (k a)) -> keeps_header (bind m k).
Proof.
  intros Hm Hk g. unfold bind. specialize (Hm g).
  destruct (m g) as [[e|a] g']; cbn [snd] in *; [exact Hm|].
  now rewrite Hk.
Qed.

Lemma keeps_for_each {A} (l : list A) (body : A -> M unit) :
  (forall x, keeps_header (body x)) -> keeps_header (for_each l body).
Proof.
  intros H. induction l as [|x l IH]; cbn [for_each].
  - apply keeps_ret.
  - apply keeps_bind; [apply H | intros _; exact IH].
Qed.

Lemma keeps_for_fold {A B} (l : list A) (body : A -> B -> M B) :
  (forall x acc, keeps_header (body x acc)) ->
  forall acc, keeps_header (for_fold l acc body).
Proof.
  intros H. induction l as [|x l IH]; intros acc; cbn [for_fold].
  - apply keeps_ret.
  - apply keeps_bind; [apply H | intros acc'; apply IH].
Qed.

Ltac keeps :=
  repeat first
    [ apply keeps_ret | apply keeps_raise | apply keeps_self
    | apply keeps_errormsg
    | apply keeps_update; intros; reflexivity
    | apply keeps_bind; [|intros]
    | apply keeps_for_each; intros
    | apply keeps_for_fold; intros
    | match goal with
      | |- keeps_header (match ?x with _ => _ end) => destruct x
      end ].

Lemma keeps_expand_extra_vars (line : string) (d : name_dict) :
  keeps_header (expand_extra_vars line d).
Proof. unfold expand_extra_vars. keeps. Qed.

Lemma keeps_create_svg (env : World) (d : name_dict) :
  keeps_header (create_svg env d).
Proof.
  unfold create_svg, get_svgout. keeps.
Qed.

Lemma bind_eq {A B} (m m' : M A) (k k' : A -> M B) (g : Generator) :
  m g = m' g ->
  (forall a g', m' g = (inr a, g') -> k a g' = k' a g') ->
  bind m k g = bind m' k' g.
Proof.
  intros H1 H2. unfold bind. rewrite H1.
  destruct (m' g) as [[e|a] g']; [reflexivity | now apply H2].
Qed.

(** The loop of [create_svg_name] builds every row's descriptor from the
    header in force when it starts. *)
Lemma create_svg_loop_header (env : World) (h : list string) (rows : list row) :
  forall g,
    header g = Some h ->
    for_each rows (fun l =>
      d <- get_line_desc l ;;
      svgout <- create_svg env d ;;
      update (fun g => set_svgouts (dict_set row_eqb (svgouts g) l svgout) g)) g
    = for_each rows (fun l =>
        svgout <- create_svg env (dict_of String.eqb (zip h l)) ;;
        update (fun g => set_svgouts (dict_set row_eqb (svgouts g) l svgout) g)) g.
Proof.
  induction rows as [|l rows IH]; intros g Hh; [reflexivity|].
  cbn [for_each]. apply bind_eq.
  - unfold bind at 1. now rewrite (get_line_desc_header g h l Hh).
  - intros [] g' Hb. apply IH. rewrite <- Hh.
    change g' with (snd (@inr exn unit tt, g')). rewrite <- Hb.
    apply keeps_bind; [apply keeps_create_svg|].
    intros svgout. apply keeps_update. reflexivity.
Qed.

Lemma create_svg_number_rows (env : World) (g : Generator) (first : row)
  (rest : list row) :
  data g = Some (first :: rest) ->
  let synthetic := map str (seq 0 (List.length first)) in
  create_svg_number env g
  = for_each (first :: rest) (fun l =>
      svgout <- create_svg env (dict_of String.eqb (zip synthetic l)) ;;
      update (fun g => set_svgouts (dict_set row_eqb (svgouts g) l svgout) g))
      (set_header synthetic g).
Proof.
  intros Hd synthetic.
  unfold create_svg_number, bind at 1, self. rewrite Hd.
  unfold bind at 1, update. unfold create_svg_name, bind at 1, self.
  cbn [set_header data]. rewrite Hd.
  now apply create_svg_loop_header.
Qed.

(** C6: a row descriptor is [dict(zip(header, row))].  In name mode the
    header names are paired with the cells by position: cells beyond the
    length of the header are dropped, a name with no cell at its position
    is not a key (unless an earlier position carries the same name), and
    with distinct names the name at a position maps to the cell there.
    In index mode the header is made of the decimal numbers 0, 1, 2, ... as
    many as the first data row has cells, and the descriptor of every row
    is built from it; the row Bob, 42 gives the descriptor 0: Bob, 1: 42,
    in which the token %VAR_1% resolves to 42. *)
Theorem row_descriptor (env : World) :
  (forall g h line,
     header g = Some h ->
     get_line_desc line g = (inr (dict_of String.eqb (zip h line)), g)) /\
  (forall (h : list string) (line : row),
     dict_of String.eqb (zip h line)
     = dict_of String.eqb (zip h (firstn (List.length h) line))) /\
  (forall (h : list string) (line : row) k,
     ~ In k (firstn (List.length line) h) ->
     dict_get String.eqb (dict_of String.eqb (zip h line)) k = None) /\
  (forall (h : list string) (line : row) i,
     NoDup h -> i < List.length h -> i < List.length line ->
     dict_get String.eqb (dict_of String.eqb (zip h line)) (nth i h "")
     = Some (nth i line "")) /\
  (forall g first rest,
     data g = Some (first :: rest) ->
     create_svg_number env g
     = for_each (first :: rest) (fun l =>
         svgout <- create_svg env
                     (dict_of String.eqb
                        (zip (map str (seq 0 (List.length first))) l)) ;;
         update (fun g => set_svgouts (dict_set row_eqb (svgouts g) l svgout) g))
         (set_header (map str (seq 0 (List.length first))) g)) /\
  dict_of String.eqb (zip (map str (seq 0 (List.length ["Bob"; "42"]))) ["Bob"; "42"])
    = [("0", "Bob"); ("1", "42")] /\
  expand_vars "%VAR_1%" [("0", "Bob"); ("1", "42")] = "42".
Proof.
  split; [intros g h line; apply get_line_desc_header|].
  split; [intros h line; now rewrite <- zip_firstn_cells|].
  split; [exact line_desc_missing|].
  split; [exact line_desc_positional|].
  split; [intros g first rest; apply create_svg_number_rows|].
  split; reflexivity.
Qed.


(** ** Further properties of the driver *)

(** A data file that cannot be opened: in either mode the run reports it
    and ends with that exception, having done nothing else. *)
Theorem unreadable_data_file (env : World) (o : Options) :
  csv_rows env (datafile o) = None ->
  effect env (init o)
  = (inl (Exception (msg_cannot_read (datafile o))),
     emit (Errormsg (msg_cannot_read (datafile o)))
          (set_format (lower (format o)) (init o))).
Proof.
  intros Hc. unfold effect, handle_csv, bind, self, update, errormsg, update, raise.
  cbn [init options set_format datafile]. now rewrite Hc.
Qed.

Lemma unreadable_data_file_witness :
  csv_rows unreadable_world (datafile sample_options) = None /\
  effect unreadable_world (init sample_options)
  = (inl (Exception (msg_cannot_read "data.csv")),
     emit (Errormsg (msg_cannot_read "data.csv")) (init sample_options)).
Proof.
  split; [reflexivity|].
  exact (unreadable_data_file unreadable_world sample_options eq_refl).
Defined.

(** In name mode a data file with a header row and no other row is not an
    error: no document is written or exported, the preview (if asked for)
    finds nothing to open and says so, and the temporary directory is
    removed. *)
Theorem header_only_data_file (env : World) (o : Options) (h : row) :
  var_type o = "name" ->
  csv_rows env (datafile o) = Some [h] ->
  exists g',
    effect env (init o) = (inr tt, g') /\
    svgouts g' = [] /\
    trace g' = ((if lower (preview o) =? "true"
                 then [Errormsg msg_preview] else []) ++ [Rmdir])%list.
Proof.
  intros Hv Hc.
  set (g1 := set_data [] (set_header h (set_format (lower (format o)) (init o)))).
  exists (emit Rmdir (if lower (preview o) =? "true"
                      then emit (Errormsg msg_preview) g1 else g1)).
  split; [|split].
  - unfold effect, handle_csv, bind at 1 2 3 4 5, self, update.
    cbn [init options set_format datafile var_type].
    rewrite Hc, Hv. cbn [String.eqb Ascii.eqb Bool.eqb].
    unfold bind at 1 2, update, ret. fold g1.
    unfold create_svg_name, export, show_preview, clean, try_except,
      bind, self, update, errormsg, update, raise, ret.
    subst g1.
    cbn [data svgouts set_data set_header set_format init for_each ret
         options format preview emit].
    destruct (lower (preview o) =? "true");
      cbn [data svgouts set_data set_header set_format init for_each ret
           options format preview emit];
      destruct (lower (format o) =? "svg"); reflexivity.
  - subst g1. destruct (lower (preview o) =? "true"); reflexivity.
  - subst g1. destruct (lower (preview o) =? "true"); reflexivity.
Qed.

Lemma header_only_data_file_witness :
  var_type sample_options = "name" /\
  csv_rows (world_with [["name"; "age"]]) (datafile sample_options)
    = Some [["name"; "age"]] /\
  exists g',
    effect (world_with [["name"; "age"]]) (init sample_options) = (inr tt, g') /\
    svgouts g' = [] /\
    trace g' = [Rmdir].
Proof.
  split; [reflexivity|]. split; [reflexivity|].
  exact (header_only_data_file (world_with [["name"; "age"]]) sample_options
           ["name"; "age"] eq_refl eq_refl).
Defined.


Lemma for_each_emit {A} (f : A -> event) (l : list A) :
  forall g, for_each l (fun x => update (emit (f x))) g
            = (inr tt, emits (map f l) g).
Proof.
  induction l as [|x l IH]; intros g; [reflexivity|].
  cbn [for_each map]. unfold bind, update at 1. now rewrite IH.
Qed.

Lemma emits_app (es1 es2 : list event) (g : Generator) :
  emits (es1 ++ es2) g = emits es2 (emits es1 g).
Proof. unfold emits. apply fold_left_app. Qed.

Lemma svgouts_emits (es : list event) :
  forall g, svgouts (emits es g) = svgouts g.
Proof.
  induction es as [|e es IH]; intros g; cbn [emits fold_left]; [reflexivity|].
  fold (emits es (emit e g)). now rewrite IH.
Qed.

(** *** The temporary directory *)

Lemma tmp_files_emits (es : list event) (g : Generator) :
  tmp_files (trace (emits es g)) = fold_left fs_step es (tmp_files (trace g)).
Proof. rewrite trace_emits. unfold tmp_files. apply fold_left_app. Qed.

Lemma in_remove_name (x f : string) (files : list string) :
  In x (remove_name f files) <-> In x files /\ x <> f.
Proof.
  unfold remove_name. rewrite filter_In, negb_true_iff, String.eqb_neq.
  reflexivity.
Qed.

Lemma existsb_eqb_in (f : string) (files : list string) :
  In f files -> existsb (String.eqb f) files = true.
Proof.
  intros H. apply existsb_exists. exists f.
  split; [assumption | apply String.eqb_refl].
Qed.

(** Events that write nothing leave in the directory what was there and
    was not moved away or removed. *)
Lemma in_after_events (es : list event) :
  Forall (fun e => match e with WriteSvg _ _ => False | _ => True end) es ->
  forall F x,
    In x (fold_left fs_step es F) <->
    In x F /\ ~ In x (flat_map removed_by es).
Proof.
  induction 1 as [|e es He Hes IH]; intros F x; cbn [fold_left flat_map].
  - cbn [In]. tauto.
  - rewrite IH, in_app_iff.
    destruct e; cbn [fs_step removed_by In]; try contradiction;
      rewrite ?in_remove_name; intuition congruence.
Qed.

Lemma empty_after_events (es : list event) (F : list string) :
  Forall (fun e => match e with WriteSvg _ _ => False | _ => True end) es ->
  (forall x, In x F -> In x (flat_map removed_by es)) ->
  fold_left fs_step es F = [].
Proof.
  intros He H. destruct (fold_left fs_step es F) as [|x l] eqn:E; [reflexivity|].
  assert (Hx : In x (fold_left fs_step es F)) by (rewrite E; now left).
  apply (in_after_events es He) in Hx. destruct Hx as [H1 H2].
  elim H2. now apply H.
Qed.

Lemma left_after_events (es : list event) (F : list string) (x : string) :
  Forall (fun e => match e with WriteSvg _ _ => False | _ => True end) es ->
  In x F -> ~ In x (flat_map removed_by es) ->
  exists y l, fold_left fs_step es F = y :: l.
Proof.
  intros He H1 H2.
  assert (Hx : In x (fold_left fs_step es F))
    by (apply (in_after_events es He); now split).
  destruct (fold_left fs_step es F) as [|y l]; [destruct Hx|].
  now exists y, l.
Qed.

Lemma removes_no_write (items : list (row * string)) :
  Forall (fun e => match e with WriteSvg _ _ => False | _ => True end)
    (map (fun item : row * string => Remove (snd item)) items).
Proof. induction items; constructor; [exact I | assumption]. Qed.

Lemma removes_removed (items : list (row * string)) :
  flat_map removed_by (map (fun item : row * string => Remove (snd item)) items)
  = map snd items.
Proof.
  induction items as [|item items IH]; [reflexivity|].
  cbn [map flat_map removed_by app]. now rewrite IH.
Qed.

Lemma renders_no_write (o : Options) (h : list string) (fmt : string)
  (items : list (row * string)) :
  Forall (fun e => match e with WriteSvg _ _ => False | _ => True end)
    (map (render_event o h fmt) items).
Proof. induction items; constructor; [exact I | assumption]. Qed.

Lemma renders_removed (o : Options) (h : list string) (fmt : string)
  (items : list (row * string)) :
  flat_map removed_by (map (render_event o h fmt) items) = [].
Proof. induction items as [|item items IH]; [reflexivity | exact IH]. Qed.

Lemma renders_neutral (o : Options) (h : list string) (fmt : string)
  (items : list (row * string)) (F : list string) :
  fold_left fs_step (map (render_event o h fmt) items) F = F.
Proof. induction items as [|item items IH]; [reflexivity | exact IH]. Qed.

Lemma moves_no_write (env : World) (o : Options) (h : list string)
  (items : list (row * string)) :
  Forall (fun e => match e with WriteSvg _ _ => False | _ => True end)
    (map (move_event env o h) items).
Proof.
  induction items as [|item items IH]; constructor; [|assumption].
  unfold move_event. now destruct (shutil_move env _ _).
Qed.

(** What the moves take out of the directory are the files of the items
    whose move succeeded. *)
Lemma moves_removed (env : World) (o : Options) (h : list string)
  (items : list (row * string)) (x : string) :
  In x (flat_map removed_by (map (move_event env o h) items)) <->
  exists item, In item items /\ snd item = x /\
               shutil_move env (snd item) (resolved_output o h (fst item)) = None.
Proof.
  induction items as [|item items IH]; cbn [map flat_map In].
  - split; [contradiction | now intros (item & [] & _)].
  - rewrite in_app_iff, IH. split.
    + intros [H|(item' & H1 & H2 & H3)].
      * exists item. unfold move_event in H.
        destruct (shutil_move env (snd item) _) eqn:E; cbn [removed_by In] in H.
        -- contradiction.
        -- destruct H as [H|[]]. now auto.
      * exists item'. now auto.
    + intros (item' & [H1|H1] & H2 & H3).
      * subst item'. left. unfold move_event. rewrite H3. cbn [removed_by In].
        now left.
      * right. now exists item'.
Qed.

Lemma NoDup_map_eq {A B} (f : A -> B) (l : list A) (a b : A) :
  NoDup (map f l) -> In a l -> In b l -> f a = f b -> a = b.
Proof.
  induction l as [|x l IH]; intros Hn Ha Hb E; [destruct Ha|].
  cbn [map] in Hn. inversion Hn as [|? ? Hnot Hn']; subst.
  destruct Ha as [Ha|Ha], Hb as [Hb|Hb]; subst.
  - reflexivity.
  - elim Hnot. rewrite E. now apply in_map.
  - elim Hnot. rewrite <- E. now apply in_map.
  - now apply IH.
Qed.

(** The loop of [clean]: each temporary file is removed, as long as each
    is in the directory. *)
Lemma remove_loop (items : list (row * string)) :
  forall g,
    NoDup (map snd items) ->
    (forall f, In f (map snd items) -> In f (tmp_files (trace g))) ->
    for_each items (fun item => os_remove (snd item)) g
    = (inr tt, emits (map (fun item => Remove (snd item)) items) g).
Proof.
  induction items as [|[line f] items IH]; intros g Hn Hin; [reflexivity|].
  cbn [map snd] in Hn, Hin. inversion Hn as [|? ? Hnot Hn']; subst.
  cbn [for_each map snd]. unfold bind at 1, os_remove at 1, bind at 1, self.
  rewrite (existsb_eqb_in f _ (Hin f (or_introl eq_refl))).
  unfold update at 1. rewrite IH; [reflexivity | assumption |].
  intros f' Hf'.
  change (trace (emit (Remove f) g)) with (trace g ++ [Remove f])%list.
  unfold tmp_files. rewrite fold_left_app. cbn [fold_left fs_step].
  apply in_remove_name. split; [apply Hin; now right|].
  intros ->. contradiction.
Qed.

(** In a format other than svg and jpg, with the documents of the rows in
    the temporary directory and nothing else, export and clean together
    render every document with one inkscape command (the rsvg-convert
    branch is switched off), in the format and resolution of the options,
    then remove every temporary file and the temporary directory,
    whatever the commands do. *)
Theorem export_clean_rendered (env : World) (g : Generator) (h : list string) :
  header g = Some h ->
  format (options g) <> "jpg" ->
  format (options g) <> "svg" ->
  NoDup (map snd (svgouts g)) ->
  (forall f, In f (tmp_files (trace g)) <-> In f (map snd (svgouts g))) ->
  (export env ;; clean) g
  = (inr tt,
     emits (map (render_event (options g) h (format (options g))) (svgouts g)
            ++ map (fun item => Remove (snd item)) (svgouts g)
            ++ [Rmdir])%list g).
Proof.
  intros Hh Hj Hs Hn Hd. apply String.eqb_neq in Hj, Hs.
  unfold bind at 1, export at 1, bind at 1, self.
  rewrite (export_loop_other env h (svgouts g) g Hh Hj Hs).
  set (renders := map (render_event (options g) h (format (options g))) (svgouts g)).
  assert (Hd1 : tmp_files (trace (emits renders g)) = tmp_files (trace g))
    by (rewrite tmp_files_emits; apply renders_neutral).
  unfold clean, bind at 1, self. rewrite options_emits, Hs. cbn [negb].
  unfold bind at 1. rewrite svgouts_emits.
  rewrite remove_loop;
    [| assumption | intros f Hf; rewrite Hd1; now apply Hd].
  unfold os_rmdir, bind, self. rewrite tmp_files_emits, Hd1.
  rewrite empty_after_events.
  - unfold update. rewrite !emits_app. reflexivity.
  - apply removes_no_write.
  - intros x Hx. rewrite removes_removed. now apply Hd.
Qed.

Lemma export_clean_rendered_witness :
  (export sample_world ;; clean)
    (written plain_pdf_options [["Alice"]; ["Bob"]; ["Carol"]])
  = (inr tt,
     emits [System (inkscape_cmd "tmp0.svg" "pdf" "90" "Alice.pdf");
            System (inkscape_cmd "tmp1.svg" "pdf" "90" "Bob.pdf");
            System (inkscape_cmd "tmp2.svg" "pdf" "90" "Carol.pdf");
            Remove "tmp0.svg"; Remove "tmp1.svg"; Remove "tmp2.svg"; Rmdir]
       (written plain_pdf_options [["Alice"]; ["Bob"]; ["Carol"]])).
Proof.
  refine (export_clean_rendered sample_world
            (written plain_pdf_options [["Alice"]; ["Bob"]; ["Carol"]]) ["name"]
            eq_refl _ _ _ _).
  - discriminate.
  - discriminate.
  - repeat constructor; cbn; intuition discriminate.
  - intros f. reflexivity.
Defined.

(** A document left in the temporary directory that is no longer the
    document of a row (the data repeats a row: the later document takes
    the place of the earlier one in self.svgouts) makes the run end with
    the OSError of os.rmdir, after every document of self.svgouts was
    rendered and removed. *)
Theorem leftover_document_stops_clean (env : World) (g : Generator)
  (h : list string) (f0 : string) :
  header g = Some h ->
  format (options g) <> "jpg" ->
  format (options g) <> "svg" ->
  NoDup (map snd (svgouts g)) ->
  (forall f, In f (map snd (svgouts g)) -> In f (tmp_files (trace g))) ->
  In f0 (tmp_files (trace g)) ->
  ~ In f0 (map snd (svgouts g)) ->
  (export env ;; clean) g
  = (inl OSError,
     emits (map (render_event (options g) h (format (options g))) (svgouts g)
            ++ map (fun item => Remove (snd item)) (svgouts g))%list g).
Proof.
  intros Hh Hj Hs Hn Hd H0 Hnot. apply String.eqb_neq in Hj, Hs.
  unfold bind at 1, export at 1, bind at 1, self.
  rewrite (export_loop_other env h (svgouts g) g Hh Hj Hs).
  set (renders := map (render_event (options g) h (format (options g))) (svgouts g)).
  assert (Hd1 : tmp_files (trace (emits renders g)) = tmp_files (trace g))
    by (rewrite tmp_files_emits; apply renders_neutral).
  unfold clean, bind at 1, self. rewrite options_emits, Hs. cbn [negb].
  unfold bind at 1. rewrite svgouts_emits.
  rewrite remove_loop;
    [| assumption | intros f Hf; rewrite Hd1; now apply Hd].
  unfold os_rmdir, bind, self. rewrite tmp_files_emits, Hd1.
  destruct (left_after_events
              (map (fun item : row * string => Remove (snd item)) (svgouts g))
              (tmp_files (trace g)) f0 (removes_no_write _) H0) as (y & l & E).
  - now rewrite removes_removed.
  - rewrite E. unfold raise. rewrite emits_app. reflexivity.
Qed.

Lemma leftover_document_stops_clean_witness :
  svgouts (written plain_pdf_options [["Alice"]; ["Bob"]; ["Alice"]])
    = [(["Alice"], "tmp2.svg"); (["Bob"], "tmp1.svg")] /\
  tmp_files (trace (written plain_pdf_options [["Alice"]; ["Bob"]; ["Alice"]]))
    = ["tmp0.svg"; "tmp1.svg"; "tmp2.svg"] /\
  (export sample_world ;; clean)
    (written plain_pdf_options [["Alice"]; ["Bob"]; ["Alice"]])
  = (inl OSError,
     emits [System (inkscape_cmd "tmp2.svg" "pdf" "90" "Alice.pdf");
            System (inkscape_cmd "tmp1.svg" "pdf" "90" "Bob.pdf");
            Remove "tmp2.svg"; Remove "tmp1.svg"]
       (written plain_pdf_options [["Alice"]; ["Bob"]; ["Alice"]])) /\
  fst (effect (world_with [["name"]; ["Alice"]; ["Bob"]; ["Alice"]])
         (init plain_pdf_options)) = inl OSError.
Proof.
  split; [reflexivity|]. split; [reflexivity|]. split; [|reflexivity].
  refine (leftover_document_stops_clean sample_world
            (written plain_pdf_options [["Alice"]; ["Bob"]; ["Alice"]]) ["name"]
            "tmp0.svg" eq_refl _ _ _ _ _ _).
  - discriminate.
  - discriminate.
  - repeat constructor; cbn; intuition discriminate.
  - cbn. intuition.
  - cbn. intuition.
  - cbn. intuition discriminate.
Defined.

(** In svg format, when every move succeeds or raises the OSError that
    the export handles, export moves each document to its output path or
    reports that it cannot be created; clean then removes no file, only
    the temporary directory.  If every document was moved and no other
    file is in the directory, the run ends normally; if the move of one
    document failed with OSError, that document is still in the
    directory, and the run ends with the OSError of os.rmdir. *)
Theorem export_clean_svg (env : World) (g : Generator) (h : list string) :
  header g = Some h ->
  format (options g) = "svg" ->
  forallb (move_handled env (options g) h) (svgouts g) = true ->
  NoDup (map snd (svgouts g)) ->
  ((forall item, In item (svgouts g) ->
      shutil_move env (snd item) (resolved_output (options g) h (fst item))
      = None) ->
   (forall f, In f (tmp_files (trace g)) -> In f (map snd (svgouts g))) ->
   (export env ;; clean) g
   = (inr tt,
      emits (map (move_event env (options g) h) (svgouts g) ++ [Rmdir])%list g))
  /\
  (forall item, In item (svgouts g) ->
     shutil_move env (snd item) (resolved_output (options g) h (fst item))
     = Some OSError ->
     In (snd item) (tmp_files (trace g)) ->
     (export env ;; clean) g
     = (inl OSError, emits (map (move_event env (options g) h) (svgouts g)) g)).
Proof.
  intros Hh Hf Hm Hn.
  assert (E : (export env ;; clean) g
              = os_rmdir (emits (map (move_event env (options g) h) (svgouts g)) g)).
  { unfold bind at 1, export at 1, bind at 1, self.
    rewrite (export_loop_svg env h (svgouts g) g Hh Hf Hm).
    unfold clean, bind at 1, self. rewrite options_emits, Hf.
    cbn [String.eqb Ascii.eqb Bool.eqb negb]. reflexivity. }
  rewrite E. unfold os_rmdir, bind, self. rewrite tmp_files_emits. split.
  - intros Hall Hd. rewrite empty_after_events.
    + unfold update. rewrite emits_app. reflexivity.
    + apply moves_no_write.
    + intros x Hx. apply moves_removed.
      apply Hd, in_map_iff in Hx. destruct Hx as (item & Hx & Hin).
      exists item. repeat split; [assumption.. | now apply Hall].
  - intros item Hin Hfail Hd.
    destruct (left_after_events
                (map (move_event env (options g) h) (svgouts g))
                (tmp_files (trace g)) (snd item)
                (moves_no_write env (options g) h (svgouts g)) Hd)
      as (y & l & El).
    + intros Hx. apply moves_removed in Hx.
      destruct Hx as (item' & Hin' & Hsnd & Hok).
      assert (item' = item) by now apply (NoDup_map_eq snd (svgouts g)).
      subst item'. congruence.
    + now rewrite El.
Qed.

Lemma export_clean_svg_witness :
  (export sample_world ;; clean)
    (written sample_options [["Alice"]; ["Bob"]; ["Carol"]])
  = (inl OSError,
     emits [MoveFile "tmp0.svg" "Alice.svg";
            Errormsg (msg_cannot_create "Bob.svg");
            MoveFile "tmp2.svg" "Carol.svg"]
       (written sample_options [["Alice"]; ["Bob"]; ["Carol"]])).
Proof.
  refine (proj2 (export_clean_svg sample_world
                   (written sample_options [["Alice"]; ["Bob"]; ["Carol"]])
                   ["name"] eq_refl eq_refl eq_refl _)
            (["Bob"], "tmp1.svg") _ eq_refl _).
  - repeat constructor; cbn; intuition discriminate.
  - cbn. intuition.
  - cbn. intuition.
Defined.

(** ** Further properties of Stage A *)

Lemma for_fold_app {A B} (l1 l2 : list A) (body : A -> B -> M B) :
  forall (acc : B) (g : Generator),
    for_fold (l1 ++ l2)%list acc body g
    = match for_fold l1 acc body g with
      | (inr acc', g') => for_fold l2 acc' body g'
      | (inl e, g') => (inl e, g')
      end.
Proof.
  induction l1 as [|x l1 IH]; intros acc g; [reflexivity|].
  cbn [app for_fold]. unfold bind.
  destruct (body x acc g) as [[e|acc'] g']; [reflexivity | apply IH].
Qed.

(** A replacement string that does not split into exactly two parts at
    [=>] is fatal when the loop reaches it, whether or not anything in the
    line would be replaced: the rules before it are applied, and unless
    one of them misses its column the run ends with the
    unrecognized-replacement-string exception, reported first. *)
Theorem malformed_rule_fatal (g : Generator) (line : string) (d : name_dict)
  (pre post : list string) (t : string) (rules : list (string * string)) :
  extra_vars (options g) <> "" ->
  split (extra_vars (options g)) "|" = (pre ++ t :: post)%list ->
  map (fun t => split t "=>") pre = map (fun r => [fst r; snd r]) rules ->
  (forall a b, split t "=>" <> [a; b]) ->
  expand_extra_vars line d g =
    match stage_a rules d line with
    | Substituted _ =>
        (inl (Exception (msg_unrecognized t)),
         emit (Errormsg (msg_unrecognized t)) g)
    | UnknownColumnReference column =>
        let msg := if var_type (options g) =? "name"
                   then msg_wrong_name column
                   else msg_wrong_number column in
        (inl (Exception msg), emit (Errormsg msg) g)
    end.
Proof.
  intros Hne Hs Hpre Ht.
  unfold expand_extra_vars, bind at 1, self.
  apply String.eqb_neq in Hne. rewrite Hne, Hs, for_fold_app.
  rewrite (expand_rules_stage_a g d rules pre line Hpre).
  destruct (stage_a rules d line) as [text|column]; [|reflexivity].
  cbn [for_fold]. unfold bind at 1.
  destruct (split t "=>") as [|a [|b [|c l]]] eqn:E; try reflexivity.
  exfalso. now apply (Ht a b).
Qed.

Lemma malformed_rule_fatal_witness :
  extra_vars (options (init pdf_options)) <> "" /\
  split (extra_vars (options (init pdf_options))) "|" = ["FOO=>name"; ""] /\
  expand_extra_vars "no literal here" [("name", "Alice")] (init pdf_options)
  = (inl (Exception (msg_unrecognized "")),
     emit (Errormsg (msg_unrecognized "")) (init pdf_options)).
Proof.
  split; [discriminate|]. split; [reflexivity|].
  exact (malformed_rule_fatal (init pdf_options) "no literal here"
           [("name", "Alice")] ["FOO=>name"] [] "" [("FOO", "name")]
           ltac:(discriminate) eq_refl eq_refl
           ltac:(intros a b; discriminate)).
Defined.

Lemma split_go_absent (sep s : string) :
  str_in sep s = false -> split_go sep 0 s = [s].
Proof.
  induction s as [|c s IH]; intros H; [reflexivity|].
  cbn [split_go]. rewrite (str_in_not_prefix _ _ H).
  now rewrite IH by exact (str_in_cons _ _ _ H).
Qed.

Lemma split_go_nonempty (sep s : string) :
  forall n, split_go sep n s <> [].
Proof.
  induction s as [|c s IH]; intros n; cbn [split_go]; [discriminate|].
  destruct n as [|n]; [|apply IH].
  destruct (prefix sep (String c s)); [discriminate|].
  destruct (split_go sep 0 s); discriminate.
Qed.

(** Splitting at a one-character separator: the text before its first
    occurrence is the first piece. *)
Lemma split_char_first (c : ascii) (a b : string) :
  str_in (String c "") a = false ->
  split (a ++ String c b) (String c "") = a :: split b (String c "").
Proof.
  unfold split. induction a as [|x a IH]; intros H.
  - cbn [append split_go]. rewrite prefix_cons, Ascii.eqb_refl, prefix_nil.
    reflexivity.
  - rewrite str_in_char in H. apply orb_false_iff in H as [Hx Ha].
    cbn [append split_go]. rewrite prefix_cons, Hx. cbn [andb].
    now rewrite IH.
Qed.

(** Splitting at [=>]: the text before its first occurrence is the first
    piece. *)
Lemma split_arrow_first (a b : string) :
  str_in "=>" a = false ->
  split (a ++ "=>" ++ b) "=>" = a :: split b "=>".
Proof.
  unfold split. change ("=>" ++ b) with (String "="%char (String ">"%char b)).
  induction a as [|x a IH]; intros H.
  - cbn [append split_go].
    change "=>" with (String "="%char (String ">"%char "")).
    rewrite !prefix_cons, !Ascii.eqb_refl, prefix_nil. reflexivity.
  - pose proof (str_in_cons _ _ _ H) as Ha.
    pose proof (str_in_not_prefix _ _ H) as Hp.
    cbn [append split_go].
    match goal with
    | |- context [prefix ?p ?q] => assert (E : prefix p q = false)
    end.
    { rewrite prefix_cons in *. destruct (Ascii.eqb "=" x); [|reflexivity].
      cbn [andb] in *. destruct a as [|y a].
      - cbn [append]. now rewrite prefix_cons.
      - cbn [append]. rewrite prefix_cons in *. rewrite prefix_nil in *.
        rewrite andb_true_r in *. exact Hp. }
    rewrite E. now rewrite IH.
Qed.

Lemma split_join_bar (pieces : list string) :
  pieces <> [] ->
  Forall (fun x => str_in "|" x = false) pieces ->
  split (join "|" pieces) "|" = pieces.
Proof.
  intros Hne H. induction H as [|x rest Hx Hrest IH]; [congruence|].
  destruct rest as [|y rest].
  - cbn [join]. unfold split. now apply split_go_absent.
  - change (join "|" (x :: y :: rest))
      with (x ++ String "|"%char (join "|" (y :: rest))).
    change "|" with (String "|"%char "") in *.
    rewrite split_char_first by exact Hx.
    f_equal. apply IH. discriminate.
Qed.

Lemma split_rule_string (r : string * string) :
  plain_rule r -> split (rule_string r) "=>" = [fst r; snd r].
Proof.
  intros (_ & _ & H1 & H2). unfold rule_string.
  rewrite split_arrow_first by exact H1.
  unfold split. now rewrite split_go_absent.
Qed.

Lemma rule_string_no_bar (r : string * string) :
  plain_rule r -> str_in "|" (rule_string r) = false.
Proof.
  intros (H1 & H2 & _ & _). unfold rule_string.
  change "|" with (String "|"%char "") in *.
  rewrite !str_in_char_app, H1, H2. reflexivity.
Qed.

Lemma join_rules_not_empty (rules : list (string * string)) :
  rules <> [] -> join "|" (map rule_string rules) <> "".
Proof.
  destruct rules as [|[a b] rules]; [congruence|]. intros _.
  assert (H : forall t, (a ++ "=>" ++ b) ++ t <> "").
  { intros t. destruct a; discriminate. }
  cbn [map]. unfold rule_string at 1. cbn [fst snd].
  destruct (map rule_string rules); cbn [join].
  - rewrite <- (append_nil_r (a ++ "=>" ++ b)). apply H.
  - apply H.
Qed.

(** The rule syntax round trip: a table of rules written as
    literal=>column entries joined by [|] is read back as exactly those
    rules, provided no literal and no column holds [|] or [=>]; Stage A
    then applies them in order. *)
Theorem serialised_rules_round_trip (g : Generator) (line : string)
  (d : name_dict) (rules : list (string * string)) :
  rules <> [] ->
  Forall plain_rule rules ->
  extra_vars (options g) = join "|" (map rule_string rules) ->
  map (fun t => split t "=>") (split (extra_vars (options g)) "|")
    = map (fun r => [fst r; snd r]) rules /\
  expand_extra_vars line d g =
    match stage_a rules d line with
    | Substituted text => (inr text, g)
    | UnknownColumnReference column =>
        let msg := if var_type (options g) =? "name"
                   then msg_wrong_name column
                   else msg_wrong_number column in
        (inl (Exception msg), emit (Errormsg msg) g)
    end.
Proof.
  intros Hne Hplain He.
  assert (Hparse : map (fun t => split t "=>") (split (extra_vars (options g)) "|")
                   = map (fun r => [fst r; snd r]) rules).
  { rewrite He, split_join_bar.
    - rewrite map_map. apply map_ext_in. intros r Hr.
      apply split_rule_string. rewrite Forall_forall in Hplain. now apply Hplain.
    - destruct rules; [congruence | discriminate].
    - rewrite Forall_forall in *. intros x Hx.
      apply in_map_iff in Hx as (r & <- & Hr).
      apply rule_string_no_bar. now apply Hplain. }
  split; [exact Hparse|].
  unfold expand_extra_vars, bind at 1, self.
  assert (Hn : extra_vars (options g) <> "")
    by (rewrite He; now apply join_rules_not_empty).
  apply String.eqb_neq in Hn. rewrite Hn.
  now apply expand_rules_stage_a.
Qed.

Lemma serialised_rules_round_trip_witness :
  extra_vars (options (init sample_options))
    = join "|" (map rule_string [("FOO", "name"); ("BAR", "age")]) /\
  expand_extra_vars "FOO, BAR" [("name", "Al"); ("age", "<3")] (init sample_options)
  = (inr "Al, &lt;3", init sample_options).
Proof.
  split; [reflexivity|].
  exact (proj2 (serialised_rules_round_trip (init sample_options) "FOO, BAR"
                  [("name", "Al"); ("age", "<3")] [("FOO", "name"); ("BAR", "age")]
                  ltac:(discriminate)
                  ltac:(repeat constructor)
                  eq_refl)).
Defined.

(** ** Further properties of Stage B *)





(** ** Further properties of the layer filter *)

Lemma span_not_percent_spec (s : string) :
  forall grp rest,
    span_not_percent s = (grp, rest) ->
    s = grp ++ rest /\ str_in "%" grp = false /\
    (rest = "" \/ exists rest', rest = String percent rest').
Proof.
  induction s as [|c s IH]; intros grp rest H; cbn [span_not_percent] in H.
  - injection H as <- <-. repeat split. now left.
  - destruct (Ascii.eqb c percent) eqn:E.
    + injection H as <- <-. apply Ascii.eqb_eq in E. subst c.
      repeat split. right. now exists s.
    + destruct (span_not_percent s) as [grp' rest'] eqn:Es.
      injection H as <- <-. destruct (IH grp' rest' eq_refl) as (H1 & H2 & H3).
      split; [cbn [append]; now f_equal|]. split; [|exact H3].
      change "%" with (String percent "") in *.
      rewrite str_in_char, H2, Ascii.eqb_sym, E. reflexivity.
Qed.

Lemma span_not_percent_group (col post : string) :
  str_in "%" col = false ->
  span_not_percent (col ++ String percent post) = (col, String percent post).
Proof.
  change "%" with (String percent "").
  induction col as [|c col IH]; intros H.
  - reflexivity.
  - rewrite str_in_char in H. apply orb_false_iff in H as [Hc Hcol].
    cbn [append span_not_percent]. rewrite Ascii.eqb_sym, Hc.
    now rewrite IH.
Qed.

Lemma prefix_drop (tag s : string) :
  prefix tag s = true -> s = tag ++ drop (String.length tag) s.
Proof.
  revert s. induction tag as [|a tag IH]; intros s H.
  - now destruct s.
  - destruct s as [|c s]; [discriminate H|].
    rewrite prefix_cons in H. apply andb_true_iff in H as [H1 H2].
    apply Ascii.eqb_eq in H1. subst c. cbn [String.length drop append].
    f_equal. now apply IH.
Qed.

Lemma drop_app (tag s : string) : drop (String.length tag) (tag ++ s) = s.
Proof. induction tag as [|a tag IH]; [now destruct s | exact IH]. Qed.

Lemma match_here_sound (tag s col : string) :
  match_here tag s = Some col ->
  exists post, s = tag ++ col ++ "%" ++ post /\ str_in "%" col = false.
Proof.
  unfold match_here. destruct (prefix tag s) eqn:E; [|discriminate].
  destruct (span_not_percent (drop (String.length tag) s)) as [grp rest] eqn:Es.
  destruct (span_not_percent_spec _ _ _ Es) as (H1 & H2 & H3).
  destruct rest as [|c rest]; [discriminate|]. intros [= <-].
  destruct H3 as [H3 | [rest' H3]]; [discriminate H3|].
  injection H3 as -> ->. exists rest'. split; [|exact H2].
  rewrite (prefix_drop tag s E) at 1. now rewrite H1.
Qed.

Lemma match_here_complete (tag col post : string) :
  str_in "%" col = false ->
  match_here tag (tag ++ col ++ "%" ++ post) = Some col.
Proof.
  intros H. unfold match_here. rewrite prefix_app, drop_app.
  change (col ++ "%" ++ post) with (col ++ String percent post).
  now rewrite span_not_percent_group.
Qed.

Lemma re_match_here (tag s col : string) :
  match_here tag s = Some col -> re_match tag s <> None.
Proof.
  intros H. destruct s as [|c s]; cbn [re_match]; [now rewrite H|].
  destruct (Ascii.eqb c newline); [now rewrite H|].
  destruct (re_match tag s); [discriminate | now rewrite H].
Qed.

(** The marker pattern, read as what it accepts.  A column name taken
    from a label is delimited there by the tag and a percent sign, has no
    percent sign in it, and starts on the first line of the label; and a
    label that holds such a marker on its first line always yields a
    column name (that of its rightmost marker). *)
Theorem marker_pattern (tag label : string) :
  (forall col,
     re_match tag label = Some col ->
     exists pre post,
       label = pre ++ tag ++ col ++ "%" ++ post /\
       str_in "%" col = false /\
       str_in (String newline "") pre = false) /\
  (forall pre col post,
     str_in (String newline "") pre = false ->
     str_in "%" col = false ->
     label = pre ++ tag ++ col ++ "%" ++ post ->
     re_match tag label <> None).
Proof.
  split.
  - induction label as [|c rest IH]; intros col H; cbn [re_match] in H.
    + apply match_here_sound in H as (post & H1 & H2).
      exists "", post. now repeat split.
    + assert (Hhere : match_here tag (String c rest) = Some col ->
                exists pre post,
                  String c rest = pre ++ tag ++ col ++ "%" ++ post /\
                  str_in "%" col = false /\
                  str_in (String newline "") pre = false).
      { intros Hm. apply match_here_sound in Hm as (post & H1 & H2).
        exists "", post. now repeat split. }
      destruct (Ascii.eqb c newline) eqn:E; [now apply Hhere|].
      destruct (re_match tag rest) as [grp|]; [|now apply Hhere].
      injection H as ->. destruct (IH col eq_refl) as (pre & post & H1 & H2 & H3).
      exists (String c pre), post. split; [cbn [append]; now f_equal|].
      split; [exact H2|]. now rewrite str_in_char, Ascii.eqb_sym, E, H3.
  - intros pre col post Hpre Hcol ->. induction pre as [|c pre IH].
    + cbn [append]. apply (re_match_here tag _ col).
      now apply match_here_complete.
    + rewrite str_in_char in Hpre. apply orb_false_iff in Hpre as [Hc Hpre].
      cbn [append re_match]. rewrite Ascii.eqb_sym, Hc.
      specialize (IH Hpre). destruct (re_match tag _); [discriminate|].
      now contradiction IH.
Qed.

(** A layer whose label has an IF marker, with the column in the row: the
    group is kept without its style attribute when the column is true and
    emptied when it is false, whatever else the label holds; the only
    warning possible is that of an UNLESS marker with a missing column,
    after the group was emptied. *)
Theorem if_marker_decides (d : name_dict) (g : element) (label a va : string) :
  dict_get String.eqb (attrib g) (addNS "label" NSS_inkscape) = Some label ->
  re_match "%IF_" label = Some a ->
  dict_get String.eqb d a = Some va ->
  snd (filter_group d g) = (if if_test va then show g else clear g) /\
  (if_test va = true -> fst (filter_group d g) = []).
Proof.
  intros Hl Ha Hva. unfold filter_group.
  rewrite Hl, (re_match_percent _ _ _ Ha), Ha, Hva. cbn [negb].
  destruct (if_test va); [split; reflexivity|].
  split; [|discriminate].
  destruct (re_match "%UNLESS_" label) as [b|]; [|reflexivity].
  destruct (dict_get String.eqb d b) as [vb|]; [|reflexivity].
  destruct (unless_test vb); reflexivity.
Qed.

Lemma if_marker_decides_witness :
  snd (filter_group [("a", "No")] sample_layer) = clear sample_layer.
Proof.
  exact (proj1 (if_marker_decides [("a", "No")] sample_layer
                  "%IF_a% %UNLESS_b%" "a" "No" eq_refl eq_refl eq_refl)).
Defined.

(** A layer whose label has an UNLESS marker and no IF marker, with the
    column in the row: the group is kept without its style attribute when
    the column is false and emptied when it is true, without a warning. *)
Theorem unless_marker_alone (d : name_dict) (g : element) (label b vb : string) :
  dict_get String.eqb (attrib g) (addNS "label" NSS_inkscape) = Some label ->
  re_match "%IF_" label = None ->
  re_match "%UNLESS_" label = Some b ->
  dict_get String.eqb d b = Some vb ->
  filter_group d g = ([], if is_true vb then clear g else show g).
Proof.
  intros Hl Ha Hb Hvb. unfold filter_group.
  rewrite Hl, (re_match_percent _ _ _ Hb), Ha, Hb, Hvb. cbn [negb].
  rewrite unless_test_is_true. now destruct (is_true vb).
Qed.

(** A marker whose column is not in the row is not fatal.  For an IF
    marker the group is left as it is, with one warning, and an UNLESS
    marker in the same label is not looked at; for an UNLESS marker alone
    likewise. *)
Theorem missing_column_warning (d : name_dict) (g : element) (label : string) :
  dict_get String.eqb (attrib g) (addNS "label" NSS_inkscape) = Some label ->
  (forall a,
     re_match "%IF_" label = Some a ->
     dict_get String.eqb d a = None ->
     filter_group d g = ([msg_not_in_csv a], g)) /\
  (forall b,
     re_match "%IF_" label = None ->
     re_match "%UNLESS_" label = Some b ->
     dict_get String.eqb d b = None ->
     filter_group d g = ([msg_not_in_csv b], g)).
Proof.
  intros Hl. split.
  - intros a Ha Hva. unfold filter_group.
    now rewrite Hl, (re_match_percent _ _ _ Ha), Ha, Hva.
  - intros b Ha Hb Hvb. unfold filter_group.
    now rewrite Hl, (re_match_percent _ _ _ Hb), Ha, Hb, Hvb.
Qed.

Lemma missing_column_warning_witness :
  filter_group [("b", "yes")] sample_layer = ([msg_not_in_csv "a"], sample_layer).
Proof.
  exact (proj1 (missing_column_warning [("b", "yes")] sample_layer
                  "%IF_a% %UNLESS_b%" eq_refl) "a" eq_refl eq_refl).
Defined.

Lemma unless_marker_alone_witness :
  filter_group [("final", "FALSE")] unless_layer
  = ([], Element svg_g [(label_attr, "Draft %UNLESS_final%")]
           (Some "text") [Element "rect" [] None [] None] None).
Proof.
  exact (unless_marker_alone [("final", "FALSE")] unless_layer
           "Draft %UNLESS_final%" "final" "FALSE" eq_refl eq_refl eq_refl eq_refl).
Defined.

(** *** The warnings of the whole loop *)

Lemma nth_error_update_nth {A} (f : A -> A) (l : list A) :
  forall i j,
    nth_error (update_nth i f l) j
    = if Nat.eqb i j then option_map f (nth_error l j) else nth_error l j.
Proof.
  induction l as [|x l IH]; intros i j.
  - rewrite update_nth_nil. destruct j; now destruct (Nat.eqb i _).
  - destruct i as [|i], j as [|j]; cbn [update_nth nth_error Nat.eqb option_map];
      try reflexivity.
    apply IH.
Qed.

(** The warnings of a group depend on its attributes only. *)
Lemma group_msgs_attrib (d : name_dict) (g g0 : element) :
  attrib g = attrib g0 -> fst (filter_group d g) = fst (filter_group d g0).
Proof.
  intros H. unfold filter_group. rewrite H.
  destruct (dict_get String.eqb (attrib g0) _) as [label|]; [|reflexivity].
  destruct (negb (str_in "%" label)); [reflexivity|].
  destruct (re_match "%IF_" label) as [a|].
  - destruct (dict_get String.eqb d a) as [va|]; [|reflexivity].
    destruct (if_test va); [reflexivity|].
    destruct (re_match "%UNLESS_" label) as [b|]; [|reflexivity].
    destruct (dict_get String.eqb d b) as [vb|]; [|reflexivity].
    destruct (unless_test vb); reflexivity.
  - destruct (re_match "%UNLESS_" label) as [b|]; [|reflexivity].
    destruct (dict_get String.eqb d b) as [vb|]; [|reflexivity].
    destruct (unless_test vb); reflexivity.
Qed.

(** Treating the group at [p] leaves the attributes of every node at
    another path as they were (the node may be gone). *)
Lemma subtree_after_step (g' : element) (p : path) :
  forall (t g : element) (q : path) (n : element),
    subtree t p = Some g ->
    (g' = g \/ g' = show g \/ g' = clear g) ->
    q <> p ->
    subtree (replace_at p g' t) q = Some n ->
    exists n1, subtree t q = Some n1 /\ attrib n = attrib n1.
Proof.
  induction p as [|i p IH]; intros t g q n Hp Hg' Hq Hn.
  - cbn [subtree] in Hp. injection Hp as ->. cbn [replace_at] in Hn.
    destruct q as [|j q]; [congruence|]. cbn [subtree] in *.
    destruct Hg' as [-> | [-> | ->]].
    + exists n. now split.
    + exists n. split; [|reflexivity]. destruct g. exact Hn.
    + destruct j; discriminate Hn.
  - destruct t as [tg a x cs tl]. cbn [subtree children] in Hp.
    destruct (nth_error cs i) as [c|] eqn:Hc; [|discriminate].
    cbn [replace_at] in Hn. destruct q as [|j q].
    + cbn [subtree] in *. injection Hn as <-. eexists. split; reflexivity.
    + cbn [subtree children] in *. rewrite nth_error_update_nth in Hn.
      destruct (Nat.eqb i j) eqn:E.
      * apply Nat.eqb_eq in E. subst j. rewrite Hc in *. cbn [option_map] in Hn.
        apply (IH c g q n Hp Hg'); [congruence | exact Hn].
      * exists n. split; [exact Hn | reflexivity].
Qed.

Lemma walk_head (f : element -> list path) (cs : list element) :
  forall i p, In p (walk_with f i cs) -> exists j q, p = j :: q /\ i <= j.
Proof.
  induction cs as [|c cs IH]; intros i p H; cbn [walk_with] in H; [destruct H|].
  apply in_app_or in H as [H|H].
  - apply in_map_iff in H as (q & <- & _). exists i, q. split; [reflexivity | lia].
  - destruct (IH (S i) p H) as (j & q & -> & Hj). exists j, q. split; [reflexivity | lia].
Qed.

Lemma NoDup_map_cons (i : nat) (ps : list path) :
  NoDup ps -> NoDup (map (cons i) ps).
Proof.
  induction 1 as [|p ps Hnot _ IH]; cbn [map]; constructor; [|exact IH].
  intros H. apply in_map_iff in H as (q & [= ->] & Hq). contradiction.
Qed.

Lemma NoDup_walk (cs : list element) :
  Forall (fun c => NoDup (xpath_g c)) cs ->
  forall i, NoDup (walk_with xpath_g i cs).
Proof.
  induction 1 as [|c cs Hc _ IH]; intros i; cbn [walk_with]; [constructor|].
  apply NoDup_app.
  - now apply NoDup_map_cons.
  - apply IH.
  - intros p H1 H2. apply in_map_iff in H1 as (q & <- & _).
    destruct (walk_head _ _ _ _ H2) as (j & q' & [= <- <-] & Hj). lia.
Qed.

Lemma NoDup_xpath_g (e : element) : NoDup (xpath_g e).
Proof.
  induction e as [t a x cs tl IH] using element_ind'. cbn [xpath_g].
  apply NoDup_app.
  - destruct (t =? addNS "g" NSS_svg); repeat constructor. intros [].
  - now apply NoDup_walk.
  - intros p H1 H2. destruct (walk_head _ _ _ _ H2) as (j & q & -> & _).
    destruct (t =? addNS "g" NSS_svg); [|destruct H1].
    destruct H1 as [H1|[]]. discriminate H1.
Qed.

Lemma fold_filter_step (d : name_dict) (root : element) (ps : list path) :
  forall (m : list string) (t : element),
    NoDup ps ->
    (forall p n, In p ps -> subtree t p = Some n ->
       exists n0, subtree root p = Some n0 /\ attrib n = attrib n0) ->
    fold_left (filter_step d root) ps (m, t)
    = ((m ++ flat_map (group_msgs d root) ps)%list,
       fold_left (tree_step d) ps t).
Proof.
  induction ps as [|p ps IH]; intros m t Hnd Hinv; cbn [fold_left flat_map].
  - now rewrite app_nil_r.
  - inversion Hnd as [|? ? Hnot Hnd']; subst.
    assert (Hstep : filter_step d root (m, t) p
                    = ((m ++ group_msgs d root p)%list, tree_step d t p)).
    { unfold filter_step, tree_step, group_msgs.
      destruct (subtree t p) as [n|] eqn:Hn.
      - destruct (Hinv p n (or_introl eq_refl) Hn) as (n0 & Hn0 & Ha).
        rewrite Hn0, <- (group_msgs_attrib d n n0 Ha).
        now destruct (filter_group d n).
      - destruct (subtree root p); [reflexivity | now rewrite app_nil_r]. }
    rewrite Hstep, IH, <- app_assoc; [reflexivity | exact Hnd' |].
    intros q n Hq Hn. unfold tree_step in Hn.
    destruct (subtree t p) as [g|] eqn:Hg.
    + assert (Hqp : q <> p) by (intros ->; contradiction).
      destruct (subtree_after_step _ p t g q n Hg (filter_group_shape d g) Hqp Hn)
        as (n1 & Hn1 & Ha).
      destruct (Hinv q n1 (or_intror Hq) Hn1) as (n0 & Hn0 & Ha0).
      exists n0. split; [exact Hn0 | congruence].
    + apply (Hinv q n (or_intror Hq) Hn).
Qed.

(** The layer filter in full.  The tree it leaves is the recursive filter
    of the parsed tree: each group is treated by the loop body, and the
    children of a group go through the filter in turn unless the group
    was emptied.  Its warnings are those of all the groups the query found
    in the parsed tree, in document order, each judged by its own label:
    a group inside an emptied group is warned about too, although it is no
    longer in the tree. *)
Theorem filter_layers_characterised (d : name_dict) (root : element) :
  filter_layers root d
  = (flat_map (group_msgs d root) (xpath_g root), filter_tree d root).
Proof.
  unfold filter_layers. rewrite fold_filter_step.
  - now rewrite fold_filter_tree.
  - apply NoDup_xpath_g.
  - intros p n _ Hn. exists n. now split.
Qed.

Lemma filter_group_plain (d : name_dict) (g : element) :
  plain_group g -> filter_group d g = ([], g).
Proof.
  unfold plain_group, filter_group.
  destruct (dict_get String.eqb (attrib g) _) as [label|]; [|reflexivity].
  now intros ->.
Qed.

Lemma replace_at_same (p : path) :
  forall t g, subtree t p = Some g -> replace_at p g t = t.
Proof.
  induction p as [|i p IH]; intros t g H; cbn [subtree replace_at] in *.
  - congruence.
  - destruct t as [tg a x cs tl]. cbn [children] in H. f_equal.
    apply update_nth_same. intros c Hc. rewrite Hc in H. now apply IH.
Qed.

(** A document in which no element is a layer with a percent sign in its
    label goes through the layer filter unchanged and without a warning. *)
Theorem filter_layers_identity (d : name_dict) (root : element) :
  (forall p g, subtree root p = Some g -> plain_group g) ->
  filter_layers root d = ([], root).
Proof.
  intros H. unfold filter_layers. generalize (xpath_g root) as ps.
  induction ps as [|p ps IH]; cbn [fold_left]; [reflexivity|].
  unfold filter_step at 2. destruct (subtree root p) as [g|] eqn:Hg; [|exact IH].
  rewrite (filter_group_plain d g (H p g Hg)).
  now rewrite (replace_at_same p root g Hg).
Qed.

Lemma filter_layers_identity_witness :
  filter_layers
    (Element "svg" [] None
       [Element svg_g [(label_attr, "Background")] None
          [Element "rect" [] None [] None] None] None)
    [("a", "no")]
  = ([], Element "svg" [] None
           [Element svg_g [(label_attr, "Background")] None
              [Element "rect" [] None [] None] None] None).
Proof.
  apply filter_layers_identity. intros p g H.
  destruct p as [|[|i] p]; cbn in H;
    [injection H as <-; exact I | | destruct i; discriminate H].
  destruct p as [|[|j] p]; cbn in H;
    [injection H as <-; reflexivity | | destruct j; discriminate H].
  destruct p as [|k p]; cbn in H;
    [injection H as <-; exact I | destruct k; discriminate H].
Defined.

(** A node that is still in the final tree is the parsed node at that
    place, treated by the loop body if it is a group of the SVG namespace
    and as it was otherwise, with the children it has left filtered in the
    same way.  So an element that is not such a group keeps its tag,
    attributes, text and tail, and no element changes its tag. *)
Theorem final_tree_node (d : name_dict) (root : element) (p : path)
  (g g' : element) :
  subtree root p = Some g ->
  subtree (snd (filter_layers root d)) p = Some g' ->
  let e1 := if tag g =? addNS "g" NSS_svg then snd (filter_group d g) else g in
  g' = Element (tag g) (attrib e1) (text e1)
         (map (fun c => snd (filter_layers c d)) (children e1)) (tail e1) /\
  (tag g <> addNS "g" NSS_svg ->
   tag g' = tag g /\ attrib g' = attrib g /\ text g' = text g /\
   tail g' = tail g /\ List.length (children g') = List.length (children g)).
Proof.
  intros Hp Hp' e1.
  assert (Hshape : e1 = g \/ e1 = show g \/ e1 = clear g).
  { unfold e1. destruct (tag g =? addNS "g" NSS_svg);
      [apply filter_group_shape | now left]. }
  assert (E : g' = Element (tag g) (attrib e1) (text e1)
                     (map (fun c => snd (filter_layers c d)) (children e1))
                     (tail e1)).
  { rewrite filter_layers_tree in Hp'.
    rewrite (subtree_filter_tree d p root g g' Hp Hp').
    rewrite (map_ext _ (filter_tree d)) by (intros c; apply filter_layers_tree).
    destruct g as [t a x cs tl]. cbn [filter_tree tag] in *. fold e1.
    destruct Hshape as [-> | [-> | ->]];
      cbn [show set_attrib clear set_children attrib text children tail tag map];
      now destruct cs. }
  split; [exact E|]. intros Hne. apply String.eqb_neq in Hne.
  unfold e1 in E. rewrite Hne in E. subst g'.
  cbn [tag attrib text tail children]. rewrite length_map. now repeat split.
Qed.

Lemma final_tree_node_witness :
  subtree sample_root [0; 0] = Some (Element "rect" [] None [] None) /\
  subtree (snd (filter_layers sample_root [("a", "yes")])) [0; 0]
    = Some (Element "rect" [] None [] None) /\
  Element "rect" [] None [] None = Element "rect" [] None [] None.
Proof.
  split; [reflexivity|]. split; [reflexivity|].
  exact (proj1 (final_tree_node [("a", "yes")] sample_root [0; 0]
                  (Element "rect" [] None [] None) (Element "rect" [] None [] None)
                  eq_refl eq_refl)).
Defined.

(** ** Further properties of row descriptors *)




(** ** Further properties of the materialisation *)

Lemma same_fields_refl (g : Generator) : same_fields g g.
Proof. now repeat split. Qed.

Lemma same_fields_trans (g1 g2 g3 : Generator) :
  same_fields g1 g2 -> same_fields g2 g3 -> same_fields g1 g3.
Proof. unfold same_fields. intuition congruence. Qed.

Lemma only_ret {A} (a : A) : only_traces (ret a).
Proof. intros g. apply same_fields_refl. Qed.

Lemma only_raise {A} (e : exn) : only_traces (@raise A e).
Proof. intros g. apply same_fields_refl. Qed.

Lemma only_errormsg (msg : string) : only_traces (errormsg msg).
Proof. intros g. now repeat split. Qed.

Lemma only_bind {A B} (m : M A) (k : A -> M B) :
  only_traces m -> (forall a, only_traces (k a)) -> only_traces (bind m k).
Proof.
  intros Hm Hk g. unfold bind. specialize (Hm g).
  destruct (m g) as [[e|a] g1]; cbn [snd] in *; [exact Hm|].
  exact (same_fields_trans _ _ _ Hm (Hk a g1)).
Qed.

Lemma only_for_fold {A B} (l : list A) (body : A -> B -> M B) :
  (forall x acc, only_traces (body x acc)) ->
  forall acc, only_traces (for_fold l acc body).
Proof.
  intros H. induction l as [|x l IH]; intros acc; cbn [for_fold].
  - apply only_ret.
  - apply only_bind; [apply H | intros acc'; apply IH].
Qed.

Lemma only_expand_extra_vars (line : string) (d : name_dict) :
  only_traces (expand_extra_vars line d).
Proof.
  unfold expand_extra_vars. intros g. unfold bind at 1, self.
  destruct (extra_vars (options g) =? ""); [apply same_fields_refl|].
  apply only_for_fold. intros t acc.
  destruct (split t "=>") as [|a [|b [|c l]]];
    try (apply only_bind; [apply only_errormsg | intros; apply only_raise]).
  destruct (find acc a <? 0)%Z; [apply only_ret|].
  destruct (dict_get String.eqb d b); [apply only_ret|].
  destruct (var_type (options g) =? "name");
    (apply only_bind; [apply only_errormsg | intros; apply only_raise]).
Qed.

Lemma same_fields_emits (es : list event) :
  forall g, same_fields g (emits es g).
Proof.
  induction es as [|e es IH]; intros g; cbn [emits fold_left].
  - apply same_fields_refl.
  - fold (emits es (emit e g)).
    apply (same_fields_trans _ (emit e g)); [now repeat split | apply IH].
Qed.

(** A document that is written gets the next temporary name, and nothing
    but the count of names and the trace changes. *)
Lemma create_svg_ok (env : World) (d : name_dict) (g g' : Generator) (f : string) :
  create_svg env d g = (inr f, g') ->
  f = mktemp env (ntemp g) /\ ntemp g' = S (ntemp g) /\
  svgouts g' = svgouts g /\ header g' = header g.
Proof.
  unfold create_svg. unfold bind at 1.
  match goal with
  | |- context [for_fold ?l ?a ?b g] =>
      pose proof (only_for_fold l b
                    (fun x acc => only_bind _ _ (only_expand_extra_vars x d)
                                    (fun y => only_ret _)) a g) as Hl;
      destruct (for_fold l a b g) as [[e|s] g1]
  end; [discriminate|].
  cbn [snd] in Hl. destruct (fromstring env s) as [root|]; [|discriminate].
  destruct (filter_layers root d) as [msgs root'].
  unfold bind at 1. unfold errormsg. rewrite for_each_emit.
  pose proof (same_fields_emits (map Errormsg msgs) g1) as He.
  set (g2 := emits (map Errormsg msgs) g1) in *.
  unfold get_svgout, bind, self, update, ret, raise.
  destruct Hl as (_ & Hh1 & _ & Hs1 & Hn1), He as (_ & Hh2 & _ & Hs2 & Hn2).
  destruct (writable env (mktemp env (ntemp g2))); [|discriminate].
  intros [= <- <-]. cbn [emit next_temp ntemp svgouts header].
  repeat split; congruence.
Qed.

Lemma create_svg_loop_ok (env : World) (rows : list row) :
  forall g g',
    for_each rows (fun l =>
      d <- get_line_desc l ;;
      svgout <- create_svg env d ;;
      update (fun g => set_svgouts (dict_set row_eqb (svgouts g) l svgout) g)) g
    = (inr tt, g') ->
    ntemp g' = ntemp g + List.length rows /\
    svgouts g' = fold_left (fun s kv => dict_set row_eqb s (fst kv) (snd kv))
                   (row_files env (ntemp g) rows) (svgouts g).
Proof.
  induction rows as [|l rows IH]; intros g g'; cbn [for_each].
  - intros [= <-]. split; [cbn [List.length]; lia | reflexivity].
  - unfold bind at 1. unfold bind at 1. unfold get_line_desc at 1, bind at 1, self.
    destruct (header g) as [h|]; [|discriminate]. unfold ret at 1.
    unfold bind at 1.
    destruct (create_svg env (dict_of String.eqb (zip h l)) g) as [[e|f] g1] eqn:Ec;
      [discriminate|].
    destruct (create_svg_ok env _ g g1 f Ec) as (-> & Hn & Hs & _).
    unfold update at 1. intros H. apply IH in H as [H1 H2].
    cbn [set_svgouts ntemp svgouts] in H1, H2.
    split; [cbn [List.length]; lia|].
    rewrite H2, Hn, Hs. unfold row_files. cbn [List.length seq map combine fold_left fst snd].
    reflexivity.
Qed.

Section DictFacts.
Context {K V : Type} (eqb : K -> K -> bool).
Hypothesis eqb_eq : forall a b, eqb a b = true <-> a = b.

Lemma eqb_same (a : K) : eqb a a = true.
Proof. now apply eqb_eq. Qed.

Lemma key_get_set (d : @dict K V) (k : K) (v : V) (k' : K) :
  dict_get eqb (dict_set eqb d k v) k'
  = if eqb k k' then Some v else dict_get eqb d k'.
Proof.
  induction d as [|[k0 v0] d IH]; cbn [dict_set dict_get]; [reflexivity|].
  destruct (eqb k0 k) eqn:E0; cbn [dict_get].
  - apply eqb_eq in E0. subst k0. now destruct (eqb k k').
  - destruct (eqb k0 k') eqn:E1; [|exact IH].
    apply eqb_eq in E1. subst k0.
    destruct (eqb k k') eqn:E2; [|reflexivity].
    apply eqb_eq in E2. subst k'. now rewrite eqb_same in E0.
Qed.

Lemma key_get_app (d1 d2 : @dict K V) (k : K) :
  dict_get eqb (d1 ++ d2)%list k
  = match dict_get eqb d1 k with
    | Some v => Some v
    | None => dict_get eqb d2 k
    end.
Proof.
  induction d1 as [|[k0 v0] d1 IH]; cbn [app dict_get]; [reflexivity|].
  now destruct (eqb k0 k).
Qed.

Lemma key_get_fold (pairs : list (K * V)) :
  forall (d0 : @dict K V) (k : K),
    dict_get eqb
      (fold_left (fun d kv => dict_set eqb d (fst kv) (snd kv)) pairs d0) k
    = match dict_get eqb (rev pairs) k with
      | Some v => Some v
      | None => dict_get eqb d0 k
      end.
Proof.
  induction pairs as [|[k1 v1] pairs IH]; intros d0 k; cbn [fold_left rev].
  - reflexivity.
  - rewrite IH, key_get_app, key_get_set. cbn [fst snd dict_get].
    destruct (dict_get eqb (rev pairs) k); [reflexivity|].
    now destruct (eqb k1 k).
Qed.

Lemma key_get_not_in (d : @dict K V) (k : K) :
  ~ In k (map fst d) -> dict_get eqb d k = None.
Proof.
  induction d as [|[k0 v0] d IH]; intros H; cbn [dict_get]; [reflexivity|].
  destruct (eqb k0 k) eqn:E.
  - apply eqb_eq in E. subst k0. exfalso. apply H. now left.
  - apply IH. intros Hin. apply H. now right.
Qed.
End DictFacts.

Lemma row_eqb_eq (a b : row) : row_eqb a b = true <-> a = b.
Proof.
  revert b. induction a as [|x a IH]; intros [|y b]; cbn [row_eqb];
    try (split; [discriminate | congruence]); [now split|].
  rewrite andb_true_iff, String.eqb_eq, IH. split.
  - now intros [-> ->].
  - now intros [= -> ->].
Qed.

Lemma row_files_keys (env : World) (n : nat) (rows : list row) :
  map fst (row_files env n rows) = rows.
Proof.
  unfold row_files. revert n. induction rows as [|l rows IH]; intros n.
  - reflexivity.
  - cbn [List.length seq map combine fst]. now rewrite IH.
Qed.

Lemma row_files_nth (env : World) (rows : list row) :
  forall n i l,
    nth_error rows i = Some l ->
    nth_error (row_files env n rows) i = Some (l, mktemp env (n + i)).
Proof.
  unfold row_files. induction rows as [|l0 rows IH]; intros n i l H.
  - destruct i; discriminate H.
  - destruct i as [|i]; cbn [List.length seq map combine nth_error] in *.
    + injection H as ->. now rewrite Nat.add_0_r.
    + rewrite (IH (S n) i l H). do 2 f_equal. f_equal. lia.
Qed.

(** The documents of the rows, when all of them are written (the header
    is set, every rule finds its column, the text parses, the files can
    be written): one temporary name is used per row, in the order of the
    rows; self.svgouts, keyed by the content of the row, maps each row to
    the document of its last occurrence, so the documents written for
    earlier occurrences of a repeated row are in no entry and are neither
    exported nor removed afterwards; other keys are as before. *)
Theorem one_entry_per_distinct_row (env : World) (g g' : Generator)
  (rows : list row) :
  data g = Some rows ->
  create_svg_name env g = (inr tt, g') ->
  ntemp g' = ntemp g + List.length rows /\
  (forall i l,
     nth_error rows i = Some l ->
     (forall j, i < j -> nth_error rows j <> Some l) ->
     dict_get row_eqb (svgouts g') l = Some (mktemp env (ntemp g + i))) /\
  (forall l, ~ In l rows ->
     dict_get row_eqb (svgouts g') l = dict_get row_eqb (svgouts g) l).
Proof.
  intros Hd H. unfold create_svg_name, bind at 1, self in H. rewrite Hd in H.
  apply create_svg_loop_ok in H as [Hn Hs]. split; [exact Hn|].
  rewrite Hs. split.
  - intros i l Hi Hlast. rewrite (key_get_fold row_eqb row_eqb_eq).
    pose proof (row_files_nth env rows (ntemp g) i l Hi) as Hnth.
    destruct (nth_error_split _ _ Hnth) as (p1 & p2 & Hp & Hlen).
    rewrite Hp, rev_app_distr. cbn [rev]. rewrite <- app_assoc. cbn [app].
    rewrite (key_get_app row_eqb), (key_get_not_in row_eqb row_eqb_eq).
    + cbn [dict_get]. now rewrite (eqb_same row_eqb row_eqb_eq).
    + rewrite map_rev. intros Hin. apply in_rev in Hin.
      apply In_nth_error in Hin as [j Hj].
      apply (Hlast (S (i + j))); [lia|].
      rewrite <- (row_files_keys env (ntemp g) rows), Hp, map_app.
      cbn [map fst]. rewrite nth_error_app2 by (rewrite length_map; lia).
      rewrite length_map, Hlen.
      replace (S (i + j) - i) with (S j) by lia. exact Hj.
  - intros l Hl. rewrite (key_get_fold row_eqb row_eqb_eq).
    rewrite (key_get_not_in row_eqb row_eqb_eq); [reflexivity|].
    rewrite map_rev, row_files_keys. intros Hin. apply Hl. now apply in_rev.
Qed.

Lemma one_entry_per_distinct_row_witness :
  data repeated_rows = Some [["Alice"]; ["Bob"]; ["Alice"]] /\
  fst (create_svg_name sample_world repeated_rows) = inr tt /\
  ntemp (snd (create_svg_name sample_world repeated_rows)) = 3 /\
  dict_get row_eqb (svgouts (snd (create_svg_name sample_world repeated_rows)))
    ["Alice"] = Some "tmp2.svg" /\
  List.length (svgouts (snd (create_svg_name sample_world repeated_rows))) = 2.
Proof.
  split; [reflexivity|]. split; [reflexivity|].
  destruct (one_entry_per_distinct_row sample_world repeated_rows
              (snd (create_svg_name sample_world repeated_rows))
              [["Alice"]; ["Bob"]; ["Alice"]] eq_refl eq_refl)
    as (H1 & H2 & _).
  split; [exact H1|]. split; [|reflexivity].
  apply (H2 2 ["Alice"] eq_refl).
  intros j Hj. destruct j as [|[|[|j]]]; try lia.
  cbn. destruct j; discriminate.
Defined.

(** ** Substitution of a line with nothing to substitute *)

Lemma stage_a_no_literal (d : name_dict) (rules : list (string * string)) :
  forall line,
    (forall r, In r rules -> str_in (fst r) line = false) ->
    stage_a rules d line = Substituted line.
Proof.
  induction rules as [|[literal column] rules IH]; intros line H; [reflexivity|].
  cbn [stage_a]. pose proof (H (literal, column) (or_introl eq_refl)) as Hl.
  cbn [fst] in Hl. rewrite Hl. apply IH. intros r Hr. apply H. now right.
Qed.

(** A line in which no literal of the replacement rules occurs and which
    has no percent sign comes out of both stages as it went in, and no
    column is looked up: rules that name columns missing from the row are
    harmless on such a line. *)
Theorem untouched_line (g : Generator) (line : string) (d : name_dict)
  (rules : list (string * string)) :
  map (fun t => split t "=>") (split (extra_vars (options g)) "|")
    = map (fun r => [fst r; snd r]) rules ->
  (forall r, In r rules -> str_in (fst r) line = false) ->
  str_in "%" line = false ->
  (svg_line <- expand_extra_vars line d ;; ret (expand_vars svg_line d)) g
  = (inr line, g).
Proof.
  intros Hparse Hlit Hp. unfold bind.
  assert (H : expand_extra_vars line d g = (inr line, g)).
  { unfold expand_extra_vars, bind at 1, self.
    destruct (extra_vars (options g) =? ""); [reflexivity|].
    rewrite (expand_rules_stage_a g d rules _ line Hparse).
    now rewrite stage_a_no_literal. }
  rewrite H. unfold ret, expand_vars. now rewrite Hp.
Qed.

Lemma untouched_line_witness :
  (svg_line <- expand_extra_vars "<rect width='3'/>" [("name", "Al")] ;;
   ret (expand_vars svg_line [("name", "Al")])) (init sample_options)
  = (inr "<rect width='3'/>", init sample_options).
Proof.
  exact (untouched_line (init sample_options) "<rect width='3'/>" [("name", "Al")]
           [("FOO", "name"); ("BAR", "age")] eq_refl
           ltac:(intros r [<-|[<-|[]]]; reflexivity) eq_refl).
Defined.

(** ** Export in the rendered formats *)

Lemma export_item_ok (env : World) (h : list string) (item : row * string)
  (g : Generator) :
  header g = Some h ->
  format (options g) <> "svg" ->
  exists g', export_item env item g = (inr tt, g') /\
             header g' = Some h /\ format (options g') <> "svg".
Proof.
  intros Hh Hs. apply String.eqb_neq in Hs. destruct item as [line svgfile].
  unfold export_item. unfold bind at 1. rewrite (get_line_desc_header g h line Hh).
  unfold get_output, bind, self, ret, update.
  destruct (format (options g) =? "jpg"); cbn beta iota.
  - cbn [set_format options format String.eqb Ascii.eqb Bool.eqb].
    eexists. split; [reflexivity|]. split; [exact Hh | discriminate].
  - rewrite Hs. eexists. split; [reflexivity|].
    split; [exact Hh | now apply String.eqb_neq].
Qed.

Lemma export_loop_ok (env : World) (h : list string) (items : list (row * string)) :
  forall g,
    header g = Some h ->
    format (options g) <> "svg" ->
    exists g', for_each items (export_item env) g = (inr tt, g') /\
               header g' = Some h.
Proof.
  induction items as [|item items IH]; intros g Hh Hs; cbn [for_each].
  - exists g. now split.
  - unfold bind.
    destruct (export_item_ok env h item g Hh Hs) as (g1 & -> & Hh1 & Hs1).
    now apply IH.
Qed.

(** In a format other than svg, the export never ends with an exception
    once the header is set, and leaves the header as it is: the status
    that os.system returns for a rendering command is not looked at. *)
Theorem export_never_raises (env : World) (g : Generator) (h : list string) :
  header g = Some h ->
  format (options g) <> "svg" ->
  exists g', export env g = (inr tt, g') /\ header g' = Some h.
Proof.
  intros Hh Hs. unfold export, bind at 1, self. now apply export_loop_ok.
Qed.

Lemma export_never_raises_witness :
  fst (export sample_world (three_rows jpg_options)) = inr tt.
Proof.
  destruct (export_never_raises sample_world (three_rows jpg_options) ["name"]
              eq_refl ltac:(discriminate)) as (g' & H & _).
  now rewrite H.
Defined.

(** ** Index mode *)

Lemma to_uint_nonnil (n : nat) : Nat.to_uint n <> Decimal.Nil.
Proof.
  pose proof (DecimalNat.Unsigned.to_of (Nat.to_uint n)) as H.
  rewrite DecimalNat.Unsigned.of_to in H. rewrite H.
  apply DecimalFacts.unorm_nonnil.
Qed.

(** [str] gives different strings for different numbers. *)
Lemma str_inj (n m : nat) : str n = str m -> n = m.
Proof.
  unfold str. intros H. apply DecimalNat.Unsigned.to_uint_inj.
  assert (E : Some (Nat.to_uint n) = Some (Nat.to_uint m)).
  { rewrite <- (NilZero.usu (Nat.to_uint n)) by apply to_uint_nonnil.
    rewrite <- (NilZero.usu (Nat.to_uint m)) by apply to_uint_nonnil.
    now rewrite H. }
  now injection E.
Qed.

Lemma NoDup_map_str (l : list nat) : NoDup l -> NoDup (map str l).
Proof.
  induction 1 as [|n l Hnot _ IH]; cbn [map]; constructor; [|exact IH].
  intros H. apply in_map_iff in H as (m & E & Hm).
  apply str_inj in E. now subst m.
Qed.

Lemma in_firstn_seq (k : nat) :
  forall a n m, In m (firstn k (seq a n)) -> m < a + k.
Proof.
  induction k as [|k IH]; intros a n m H; [destruct H|].
  destruct n as [|n]; [destruct H|]. cbn [seq firstn] in H.
  destruct H as [<-|H]; [lia|]. apply IH in H. lia.
Qed.

(** In index mode the keys are the positions counted from 0, as many as
    the first data row has cells: in the descriptor of any row, the key
    [str i] holds the cell at position [i] when both that row and the
    first row are long enough, and a position at or beyond the width of
    the first row is not a key, so a cell there cannot be referred to. *)
Theorem index_mode_keys (first line : row) (i : nat) :
  let d := dict_of String.eqb (zip (map str (seq 0 (List.length first))) line) in
  (i < List.length first -> i < List.length line ->
   dict_get String.eqb d (str i) = Some (nth i line "")) /\
  (List.length first <= i -> dict_get String.eqb d (str i) = None) /\
  (List.length line <= i -> dict_get String.eqb d (str i) = None).
Proof.
  intros d. subst d. split; [|split].
  - intros H1 H2.
    rewrite <- (line_desc_positional (map str (seq 0 (List.length first))) line i).
    + f_equal.
      rewrite (nth_indep (map str (seq 0 (List.length first))) "" (str 0))
        by now rewrite length_map, length_seq.
      rewrite map_nth, seq_nth by exact H1. reflexivity.
    + apply NoDup_map_str, seq_NoDup.
    + now rewrite length_map, length_seq.
    + exact H2.
  - intros H. apply line_desc_missing. intros Hin.
    assert (Hin' : In (str i) (map str (seq 0 (List.length first)))).
    { rewrite <- (firstn_skipn (List.length line)
                    (map str (seq 0 (List.length first)))).
      apply in_or_app. now left. }
    apply in_map_iff in Hin' as (m & E & Hm).
    apply str_inj in E. subst m. apply in_seq in Hm. lia.
  - intros H. apply line_desc_missing. intros Hin.
    assert (Hin' : In (str i) (firstn (List.length line)
                                 (map str (seq 0 (List.length first))))) by exact Hin.
    rewrite firstn_map in Hin'. apply in_map_iff in Hin' as (m & E & Hm).
    apply str_inj in E. subst m.
    apply in_firstn_seq in Hm. lia.
Qed.
